(** * MIDI genre classification pipeline: a shallow embedding

    The development follows the notebook [midi_classifier.ipynb] cell by
    cell: the genre table ([get_genres]) and the vocabulary ([label_list],
    [label_dict]), the matching of files with genres ([get_matched_midi]),
    feature extraction ([normalize_features], [get_features]), the
    dataset builder ([extract_midi_features]), the 60/20/20 partition and
    the separation of features from labels, the one-hot encoder, model
    selection ([train_model]), test scoring ([calculate_accuracy]) and
    single-file prediction ([make_prediction]).

    Python values are modelled as follows.
    - [int] is [Z]; list positions and lengths are [nat].
    - [str] is [string], a character being a code point below 256; a text
      file is the string of its characters, cut into lines the way text
      mode does (a line ends at a newline, a carriage return or both); a
      data frame is the list of its rows.
    - A Python exception is a value of [exn]; code that may raise returns
      [result A].
    - Feature values and accuracies are exact rationals [Q].  An accuracy is
      a quotient [count / n] of two lengths, and the accuracies compared in
      [train_model] share their denominator, so comparing them as rationals
      is comparing the counts.  The only place where the source depends on
      the rounding of binary64 arithmetic for an integer outcome is the
      partition cell ([int(num * 0.6)]); that computation is modelled bit
      for bit in [Module Float64], on the IEEE 754 specification of the
      standard library ([SpecFloat]).
    - The MIDI decoder ([pretty_midi]) and the estimators ([sklearn]) are
      external: they appear as section variables and as function-carrying
      constructors. *)

From Stdlib Require Import ZArith QArith Lia Ascii String.
From Stdlib Require Import Floats.SpecFloat.
From stdpp Require Import base strings list gmap.

Local Open Scope Z_scope.

(** ** Python runtime: exceptions, indexing, slicing *)

Module Py.

Inductive exn : Type :=
| IndexError
| KeyError
| ValueError
| TypeError
| ZeroDivisionError
| OverflowError
| LibraryError (msg : string)   (* an exception raised by an external package *)
| Warning (msg : string).       (* a warning raised because the filter is "error" *)

Inductive result (A : Type) : Type :=
| Ok (a : A)
| Raise (e : exn).
Global Arguments Ok {A} a.
Global Arguments Raise {A} e.

Global Instance result_ret : MRet result := λ A a, Ok a.
Global Instance result_bind : MBind result := λ A B f r,
  match r with
  | Ok a => f a
  | Raise e => Raise e
  end.
Global Instance result_fmap : FMap result := λ A B f r,
  match r with
  | Ok a => Ok (f a)
  | Raise e => Raise e
  end.

Definition raises {A} (r : result A) : Prop :=
  match r with Ok _ => False | Raise _ => True end.

(** [try: body / except: return handler] with a bare [except], which
    catches every exception. *)
Definition try_except {A} (body : result A) (handler : result A) : result A :=
  match body with
  | Ok a => Ok a
  | Raise _ => handler
  end.

(** [l[i]] for a non-negative position. *)
Definition item {A} (l : list A) (i : nat) : result A :=
  match l !! i with
  | Some x => Ok x
  | None => Raise IndexError
  end.

(** [l[i]] for a Python integer: negative positions count from the end. *)
Definition item_Z {A} (l : list A) (i : Z) : result A :=
  let n := Z.of_nat (length l) in
  if 0 <=? i then item l (Z.to_nat i)
  else if - n <=? i then item l (Z.to_nat (n + i))
  else Raise IndexError.

(** [d[k]] on a dict. *)
Definition getitem {V} (d : gmap string V) (k : string) : result V :=
  match d !! k with
  | Some v => Ok v
  | None => Raise KeyError
  end.

(** [l.index(x)]: the first position holding [x]. *)
Fixpoint find_index {A} `{EqDecision A} (x : A) (l : list A) : option nat :=
  match l with
  | [] => None
  | y :: l' => if decide (y = x) then Some 0%nat else S <$> find_index x l'
  end.

Definition index {A} `{EqDecision A} (l : list A) (x : A) : result nat :=
  match find_index x l with
  | Some i => Ok i
  | None => Raise ValueError
  end.

(** Clipping of a slice bound, as [slice.indices] does for step 1. *)
Definition clip (len : nat) (i : Z) : nat :=
  if i <? 0 then Z.to_nat (Z.max 0 (Z.of_nat len + i))
  else Z.to_nat (Z.min i (Z.of_nat len)).

(** [l[a:b]], [l[:b]] and [l[a:]]. *)
Definition slice {A} (l : list A) (a b : Z) : list A :=
  let a' := clip (length l) a in
  let b' := clip (length l) b in
  take (b' - a') (drop a' l).
Definition slice_to {A} (l : list A) (b : Z) : list A :=
  take (clip (length l) b) l.
Definition slice_from {A} (l : list A) (a : Z) : list A :=
  drop (clip (length l) a) l.

(** [count / n] on two non-negative integers: true division. *)
Definition truediv (count n : nat) : result Q :=
  match n with
  | O => Raise ZeroDivisionError
  | S _ => Ok (Z.of_nat count # Pos.of_nat n)
  end.

End Py.
Import Py.

(** ** binary64 arithmetic, as far as the partition cell uses it *)

Module Float64.

Definition prec : Z := 53.
Definition emax : Z := 1024.

(** [float(n)]: the nearest double, ties to even. *)
Definition of_int (n : Z) : spec_float := binary_normalize prec emax n 0 false.

Definition mul (x y : spec_float) : spec_float := SFmul prec emax x y.

(** The double a decimal literal [a/b] denotes: the correctly rounded
    quotient. *)
Definition literal (a b : Z) : spec_float := SFdiv prec emax (of_int a) (of_int b).

(** [0.6] and [0.8]. *)
Definition lit_0_6 : spec_float := literal 6 10.
Definition lit_0_8 : spec_float := literal 8 10.

(** [int(x)]: truncation towards zero. *)
Definition to_int (x : spec_float) : result Z :=
  match x with
  | S754_zero _ => Ok 0
  | S754_finite s m e =>
      Ok (cond_Zopp s (if 0 <=? e then Z.pos m * 2 ^ e else Z.pos m / 2 ^ (- e)))
  | S754_infinity _ => Raise OverflowError
  | S754_nan => Raise ValueError
  end.

(** [int(num * c)] for an integer [num] and a double [c]. *)
Definition int_mul (num : Z) (c : spec_float) : result Z :=
  to_int (mul (of_int num) c).

End Float64.

(** ** Step 4: feature extraction *)

(** What a call into [pretty_midi] does under the default warning filter:
    it either returns a value, possibly after emitting warnings, or raises. *)
Inductive outcome (A : Type) : Type :=
| Returns (warnings : list string) (a : A)
| Fails (e : exn).
Arguments Returns {A} warnings a.
Arguments Fails {A} e.

(** Inside [warnings.catch_warnings()] with [simplefilter("error")] the first
    warning is raised as an exception. *)
Definition warnings_as_errors {A} (o : outcome A) : result A :=
  match o with
  | Returns [] a => Ok a
  | Returns (w :: _) _ => Raise (Warning w)
  | Fails e => Raise e
  end.

Record TimeSignature : Type := {
  numerator : Z;
  denominator : Z
}.

(** The attributes of a [pretty_midi.PrettyMIDI] object the notebook reads. *)
Record MidiFile : Type := {
  estimate_tempo : outcome Q;
  resolution : Z;
  time_signature_changes : list TimeSignature
}.

Definition normalize_features (features : list Q) : result (list Q) :=
  f0 ← item features 0;
  let tempo := ((f0 - 150) / 300)%Q in
  f1 ← item features 1;
  let num_sig_changes := ((f1 - 2) / 10)%Q in
  f2 ← item features 2;
  let resolution := ((f2 - 260) / 400)%Q in
  f3 ← item features 3;
  let time_sig_1 := ((f3 - 3) / 8)%Q in
  f4 ← item features 4;
  let time_sig_2 := ((f4 - 3) / 8)%Q in
  mret [tempo; resolution; time_sig_1; time_sig_2].

(** A row of [matched_midi_df]. *)
Record PathRow : Type := {
  Path : string;
  Genre : string
}.

(** A row handed to [predict]: a feature list, or [None] when
    [get_features] gave up on the file. *)
Abbreviation sample := (option (list Q)).

(** An unfitted [sklearn] estimator, by Python type.  [fit] returns the
    fitted estimator's [predict]; an [MLPClassifier] is fitted on indicator
    rows and predicts indicator rows, an [SVC] is fitted on class indices
    and predicts class indices. *)
Inductive estimator : Type :=
| MLPClassifier
    (fit : list (list Q) → list (list Z) → result (list sample → result (list (list Z))))
| SVC
    (fit : list (list Q) → list Z → result (list sample → result (list Z))).

(** A fitted estimator; [fit] returns [self], so the Python type is kept. *)
Inductive classifier : Type :=
| FittedMLP (predict : list sample → result (list (list Z)))
| FittedSVC (predict : list sample → result (list Z)).

Inductive predictions : Type :=
| Rows (p : list (list Z))
| Indices (p : list Z).

Definition predict (clf : classifier) (X : list sample) : result predictions :=
  match clf with
  | FittedMLP predict => Rows <$> predict X
  | FittedSVC predict => Indices <$> predict X
  end.

(** [np.array_equal] on two integer vectors. *)
Definition array_equal (a b : list Z) : bool := bool_decide (a = b).

(** [np.eye(n)], with integer entries. *)
Definition eye (n : nat) : list (list Z) :=
  (λ i, (λ j, if decide (i = j) then 1 else 0) <$> seq 0 n) <$> seq 0 n.

(** A [for] loop over a list, threading the loop state. *)
Fixpoint for_each {S A} (body : S → A → result S) (s : S) (l : list A) : result S :=
  match l with
  | [] => Ok s
  | x :: l' => s' ← body s x; for_each body s' l'
  end.

(** [accuracy > best_accuracy]. *)
Definition Qgt_bool (a b : Q) : bool := negb (Qle_bool a b).

(** What [train_model] prints and what it returns. *)
Record train_output : Type := {
  printed_best_accuracy : Q;
  returned_clf : option classifier
}.

Section Pipeline.

(** The decoder: [pretty_midi.PrettyMIDI(path)]. *)
Variable PrettyMIDI : string → outcome MidiFile.

(** The genre vocabulary of cell 4: [label_list = list(set(genre_df.Genre))]. *)
Variable label_list : list string.

Definition get_features (path : string) : result (option (list Q)) :=
  try_except
    (file ← warnings_as_errors (PrettyMIDI path);
     tempo ← warnings_as_errors (estimate_tempo file);
     let num_sig_changes := length (time_signature_changes file) in
     let resolution := resolution file in
     let ts_changes := time_signature_changes file in
     let ts_1 := 4 in
     let ts_2 := 4 in
     '(ts_1, ts_2) ←
       (if (0 <? length ts_changes)%nat
        then ts ← item ts_changes 0; mret (numerator ts, denominator ts)
        else mret (ts_1, ts_2));
     v ← normalize_features
           [tempo; inject_Z (Z.of_nat num_sig_changes); inject_Z resolution;
            inject_Z ts_1; inject_Z ts_2];
     mret (Some v))
    (Ok None).

(** [label_dict = {lbl: label_list.index(lbl) for lbl in label_list}]. *)
Definition label_dict : gmap string Z :=
  list_to_map
    (omap (λ lbl, (λ i, (lbl, Z.of_nat i)) <$> find_index lbl label_list)
          label_list).

(** The body of the [for index, row in path_df.iterrows()] loop, threaded
    through the accumulator [all_features]. *)
Fixpoint extract_loop (rows : list PathRow) (all_features : list (list Q))
  : result (list (list Q)) :=
  match rows with
  | [] => Ok all_features
  | row :: rest =>
      features ← get_features (Path row);
      genre ← getitem label_dict (Genre row);
      match features with
      | Some features => extract_loop rest (all_features ++ [features ++ [inject_Z genre]])
      | None => extract_loop rest all_features
      end
  end.

Definition extract_midi_features (path_df : list PathRow) : result (list (list Q)) :=
  extract_loop path_df [].

End Pipeline.

Section Partition.

Context {A : Type}.

(** [np.random.permutation] with the generator in some state. *)
Variable permutation : list A → list A.

(** Cell 10, "Partition into 3 Sets". *)
Definition partition (labeled_features : list A) : result (list A * list A * list A) :=
  let labeled_features := permutation labeled_features in
  let num := Z.of_nat (length labeled_features) in
  num_training ← Float64.int_mul num Float64.lit_0_6;
  num_validation ← Float64.int_mul num Float64.lit_0_8;
  let training_data := slice_to labeled_features num_training in
  let validation_data := slice labeled_features num_training num_validation in
  let test_data := slice_from labeled_features num_validation in
  mret (training_data, validation_data, test_data).

End Partition.

(** ** Steps 5 to 8: one-hot labels, model selection, scoring, prediction *)

Section Models.

Variable PrettyMIDI : string → outcome MidiFile.
Variable label_list : list string.

Definition num_classes : nat := length label_list.

(** [np.eye(num_classes)[labels].astype(int)]. *)
Definition one_hot (labels : list Z) : result (list (list Z)) :=
  mapM (item_Z (eye num_classes)) labels.

(** The body of [for i in range(len(v_labels))] in [train_model].  The test
    [type(clf) != SVC] is the match on the fitted estimator; its
    predictions have the shape that goes with its type. *)
Definition validation_step (clf : classifier) (v_labels : list Z)
    (v_labels_hot : list (list Z)) (predictions : predictions)
    (count : nat) (i : nat) : result nat :=
  match clf, predictions with
  | FittedMLP _, Rows predictions =>
      h ← item v_labels_hot i;
      y ← item predictions i;
      mret (if array_equal h y then S count else count)
  | FittedSVC _, Indices predictions =>
      l ← item v_labels i;
      y ← item predictions i;
      mret (if decide (l = y) then S count else count)
  | _, _ => Raise TypeError
  end.

(** Prediction and scoring of a fitted candidate on the validation set:
    the second half of the body of the loop over candidates. *)
Definition validation_accuracy (clf : classifier) (v_features : list (list Q))
    (v_labels : list Z) (v_labels_hot : list (list Z)) : result Q :=
  predictions ← predict clf (Some <$> v_features);
  count ← for_each (validation_step clf v_labels v_labels_hot predictions)
                   0%nat (seq 0 (length v_labels));
  truediv count (length v_labels_hot).

(** Fitting and scoring of one candidate. *)
Definition evaluate (t_features : list (list Q)) (t_labels : list Z)
    (v_features : list (list Q)) (v_labels : list Z)
    (clf : estimator) : result (classifier * Q) :=
  t_labels_hot ← one_hot t_labels;
  v_labels_hot ← one_hot v_labels;
  clf ← match clf with
        | SVC fit => FittedSVC <$> fit t_features t_labels
        | MLPClassifier fit => FittedMLP <$> fit t_features t_labels_hot
        end;
  accuracy ← validation_accuracy clf v_features v_labels v_labels_hot;
  mret (clf, accuracy).

(** The body of [for clf in [...]], on the state
    [(best_clf, best_accuracy)]. *)
Definition train_step (t_features : list (list Q)) (t_labels : list Z)
    (v_features : list (list Q)) (v_labels : list Z)
    (best : option classifier * Q) (clf : estimator)
  : result (option classifier * Q) :=
  '(clf, accuracy) ← evaluate t_features t_labels v_features v_labels clf;
  if Qgt_bool accuracy (snd best) then mret (Some clf, accuracy) else mret best.

(** [train_model] over a list of candidates. *)
Definition train_model_on (clfs : list estimator)
    (t_features : list (list Q)) (t_labels : list Z)
    (v_features : list (list Q)) (v_labels : list Z) : result train_output :=
  let best_clf := None in
  let best_accuracy := 0%Q in
  '(best_clf, best_accuracy) ←
    for_each (train_step t_features t_labels v_features v_labels)
             (best_clf, best_accuracy) clfs;
  mret {| printed_best_accuracy := best_accuracy; returned_clf := best_clf |}.

(** The five configurations of the notebook. *)
Variables clf_1 clf_2 clf_3 clf_4 :
  list (list Q) → list (list Z) → result (list sample → result (list (list Z))).
Variable clf_svm :
  list (list Q) → list Z → result (list sample → result (list Z)).

Definition train_model :=
  train_model_on
    [MLPClassifier clf_1; MLPClassifier clf_2; MLPClassifier clf_3;
     MLPClassifier clf_4; SVC clf_svm].

(** The body of [for i in range(len(t_features))] in [calculate_accuracy],
    with the test [type(clf) == SVC] first. *)
Definition test_step (clf : classifier) (t_labels : list Z)
    (t_labels_hot : list (list Z)) (predictions : predictions)
    (count : nat) (i : nat) : result nat :=
  match clf, predictions with
  | FittedSVC _, Indices predictions =>
      l ← item t_labels i;
      y ← item predictions i;
      mret (if decide (l = y) then S count else count)
  | FittedMLP _, Rows predictions =>
      h ← item t_labels_hot i;
      y ← item predictions i;
      mret (if array_equal h y then S count else count)
  | _, _ => Raise TypeError
  end.

Definition calculate_accuracy (clf : classifier) (t_features : list (list Q))
    (t_labels : list Z) : result Q :=
  let count := 0%nat in
  predictions ← predict clf (Some <$> t_features);
  t_labels_hot ← one_hot t_labels;
  count ← for_each (test_step clf t_labels t_labels_hot predictions)
                   count (seq 0 (length t_features));
  truediv count (length t_features).

(** [list(clf.predict([features])[0])]: the first prediction as a list;
    a class index is not iterable. *)
Definition first_as_list (predictions : predictions) : result (list Z) :=
  match predictions with
  | Rows p => item p 0
  | Indices p => _ ← item p 0; Raise TypeError
  end.

Definition make_prediction (clf : classifier) (midi_path : string) : result string :=
  features ← get_features PrettyMIDI midi_path;
  predictions ← predict clf [features];
  first ← first_as_list predictions;
  prediction_ind ← index first 1;
  prediction ← item label_list prediction_ind;
  mret prediction.

End Models.

(** ** Auxiliary notions used only to state properties *)

(** The one-hot vector of class [c] among [n] classes. *)
Definition one_hot_vector (n : nat) (c : nat) : list Z :=
  (λ j, if decide (c = j) then 1 else 0) <$> seq 0 n.

(** Top-1 decoding, [np.argmax]: the first position of the largest entry.
    The notebook never calls it; it is here to compare the exact-match rule
    with top-1 accuracy. *)
Fixpoint argmax_from (best_i : nat) (best : Z) (i : nat) (v : list Z) : nat :=
  match v with
  | [] => best_i
  | x :: v' => if best <? x then argmax_from i x (S i) v' else argmax_from best_i best (S i) v'
  end.

Definition argmax (v : list Z) : nat :=
  match v with
  | [] => 0%nat
  | x :: v' => argmax_from 0%nat x 1%nat v'
  end.

(** The double obtained from a mantissa [q'] already rounded to 53 bits,
    which is [2 ^ 53] when the rounding carried into a 54th bit. *)
Definition rounded (q' e : Z) : spec_float :=
  if q' <? 2 ^ 53 then S754_finite false (Z.to_pos q') e
  else S754_finite false (Z.to_pos (2 ^ 52)) (e + 1).

(** The number of validation examples a fitted [MLPClassifier] gets right
    under the exact-match rule: the positions where the prediction is the
    one-hot row. *)
Definition exact_matches (hot preds : list (list Z)) : nat :=
  length (filter (λ hy, hy.2 = hy.1) (zip hot preds)).

(** The same for an [SVC]: the positions where the predicted class is the
    label. *)
Definition index_matches (labels preds : list Z) : nat :=
  length (filter (λ ly, ly.1 = ly.2) (zip labels preds)).

(** One round of the selection in [train_model], on the evaluation of a
    candidate: the proofs view the loop as a fold of this function. *)
Definition keep_best (best : option classifier * Q) (r : classifier * Q)
  : option classifier * Q :=
  if Qgt_bool r.2 best.2 then (Some r.1, r.2) else best.

(** The time signature [get_features] reads: the first change event, or 4/4. *)
Definition first_time_signature (file : MidiFile) : Z * Z :=
  match time_signature_changes file with
  | [] => (4, 4)
  | ts :: _ => (numerator ts, denominator ts)
  end.

(** The labelled row [extract_midi_features] appends for a row of the
    path table, if it appends one. *)
Definition labeled_row (PrettyMIDI : string → outcome MidiFile)
    (label_list : list string) (row : PathRow) : option (list Q) :=
  match get_features PrettyMIDI (Path row), label_dict label_list !! Genre row with
  | Ok (Some features), Some genre => Some (features ++ [inject_Z genre])
  | _, _ => None
  end.

(** ** Concrete inputs used in examples *)

Module Demo.

(** A file in 4/4 at 120 beats per minute, 120 ticks per beat. *)
Definition plain_file : MidiFile :=
  {| estimate_tempo := Returns [] 120%Q;
     resolution := 120;
     time_signature_changes := [] |}.

(** A waltz that later changes to 4/4. *)
Definition waltz_file : MidiFile :=
  {| estimate_tempo := Returns [] 180%Q;
     resolution := 480;
     time_signature_changes :=
       [ {| numerator := 3; denominator := 4 |};
         {| numerator := 4; denominator := 4 |} ] |}.

(** A file with too few notes for a tempo estimate. *)
Definition silent_file : MidiFile :=
  {| estimate_tempo := Fails ValueError;
     resolution := 96;
     time_signature_changes := [] |}.

Definition codec (path : string) : outcome MidiFile :=
  if decide (path = "plain.mid") then Returns [] plain_file
  else if decide (path = "waltz.mid") then Returns [] waltz_file
  else if decide (path = "silent.mid") then Returns [] silent_file
  else if decide (path = "warns.mid") then Returns ["Tempo change on non-zero track"] plain_file
  else Fails (LibraryError "bad header").

Definition labels : list string := ["A"; "B"; "C"; "D"].

Definition rows : list PathRow :=
  [ {| Path := "plain.mid"; Genre := "B" |};
    {| Path := "corrupt.mid"; Genre := "A" |};
    {| Path := "waltz.mid"; Genre := "D" |} ].

(** A stub model whose [predict] ignores its input. *)
Definition stub (v : list Z) : classifier := FittedMLP (λ _, Ok [v]).

(** Models that predict the same output for every row. *)
Definition constant (v : list Z) : classifier :=
  FittedMLP (λ X, Ok ((λ _, v) <$> X)).
Definition constant_svc (c : Z) : classifier :=
  FittedSVC (λ X, Ok ((λ _, c) <$> X)).

(** Estimators whose [fit] ignores the training data. *)
Definition fit_rows (v : list Z)
  : list (list Q) → list (list Z) → result (list sample → result (list (list Z))) :=
  λ _ _, Ok (λ X, Ok ((λ _, v) <$> X)).
Definition fit_index (c : Z)
  : list (list Q) → list Z → result (list sample → result (list Z)) :=
  λ _ _, Ok (λ X, Ok ((λ _, c) <$> X)).
Definition mlp_always (v : list Z) : estimator := MLPClassifier (fit_rows v).
Definition svc_always (c : Z) : estimator := SVC (fit_index c).

(** A model that rejects rows that are not feature lists, as input
    validation does. *)
Definition checking (v : list Z) : classifier :=
  FittedMLP (λ X, if forallb (λ x : sample, match x with Some _ => true | None => false end) X
                  then Ok ((λ _, v) <$> X)
                  else Raise (LibraryError "bad input")).

End Demo.

(** ** Steps 2 and 3: the genre table and the matched files *)

(** Python [str] operations.  A character is a code point below 256. *)
Module Str.

Definition newline : ascii := "010"%char.
Definition tab : ascii := "009"%char.
Definition carriage_return : ascii := "013"%char.

(** [c.isspace()]: the code points 9 to 13, 28 to 32, 133 and 160. *)
Definition isspace (c : ascii) : bool :=
  let n := nat_of_ascii c in
  ((9 <=? n) && (n <=? 13) || (28 <=? n) && (n <=? 32)
   || (n =? 133) || (n =? 160))%nat.

(** [s.lstrip()], [s.rstrip()] and [s.strip()]. *)
Fixpoint lstrip (s : string) : string :=
  match s with
  | EmptyString => EmptyString
  | String c s' => if isspace c then lstrip s' else s
  end.

Fixpoint rstrip (s : string) : string :=
  match s with
  | EmptyString => EmptyString
  | String c s' =>
      match rstrip s' with
      | EmptyString => if isspace c then EmptyString else String c EmptyString
      | r => String c r
      end
  end.

Definition strip (s : string) : string := rstrip (lstrip s).

(** [s.split(sep)] for a separator of one character. *)
Fixpoint split (sep : ascii) (s : string) : list string :=
  match s with
  | EmptyString => [EmptyString]
  | String c s' =>
      if decide (c = sep) then EmptyString :: split sep s'
      else match split sep s' with
           | field :: fields => String c field :: fields
           | [] => [String c EmptyString]
           end
  end.

(** [s[n:]] for [n ≥ 0]. *)
Fixpoint drop (n : nat) (s : string) : string :=
  match n, s with
  | O, _ => s
  | S n', String _ s' => drop n' s'
  | S _, EmptyString => EmptyString
  end.

(** [sep.join(l)]. *)
Fixpoint join (sep : string) (l : list string) : string :=
  match l with
  | [] => EmptyString
  | [s] => s
  | s :: l' => s +:+ sep +:+ join sep l'
  end.

(** [f.readline()] on a file opened in text mode, whose remaining content
    is [f]: the line read, with its newline, and what remains.  A line ends
    at a newline, at a carriage return or at a carriage return followed by
    a newline, and each of them is handed over as a newline. *)
Fixpoint readline (f : string) : string * string :=
  match f with
  | EmptyString => (EmptyString, EmptyString)
  | String c f' =>
      if decide (c = newline) then (String newline EmptyString, f')
      else if decide (c = carriage_return) then
        (String newline EmptyString,
         match f' with
         | String c' f'' => if decide (c' = newline) then f'' else f'
         | EmptyString => f'
         end)
      else let '(line, rest) := readline f' in (String c line, rest)
  end.

(** The lines the loop [line = f.readline(); while line: ...; line =
    f.readline()] goes through; [fuel] bounds the number of iterations, and
    the length of the content is always enough. *)
Fixpoint readlines_upto (fuel : nat) (f : string) : list string :=
  match fuel with
  | O => []
  | S fuel' =>
      let '(line, rest) := readline f in
      match line with
      | EmptyString => []
      | _ => line :: readlines_upto fuel' rest
      end
  end.

Definition readlines (f : string) : list string :=
  readlines_upto (String.length f) f.

End Str.

(** A row of [genre_df]. *)
Module GenreTable.
Record row : Type := { TrackID : string; Genre : string }.
End GenreTable.

(** [pd.DataFrame(data={"Genre": genres, "TrackID": ids})]: the columns must
    have the same length. *)
Definition DataFrame (genres ids : list string) : result (list GenreTable.row) :=
  if decide (length genres = length ids)
  then Ok (zip_with (λ id genre, {| GenreTable.TrackID := id; GenreTable.Genre := genre |})
                    ids genres)
  else Raise ValueError.

(** The body of the [while line:] loop of [get_genres], on the state
    [(ids, genres)]. *)
Definition get_genres_step (st : list string * list string) (line : string)
  : result (list string * list string) :=
  let '(ids, genres) := st in
  match line with
  | EmptyString => Raise IndexError
  | String c _ =>
      if decide (c ≠ "#"%char) then
        match Str.split Str.tab (Str.strip line) with
        | x :: y :: _ => Ok (ids ++ [x], genres ++ [y])
        | _ => Raise ValueError
        end
      else Ok (ids, genres)
  end.

(** [get_genres], on the content of the file at [path]. *)
Definition get_genres (content : string) : result (list GenreTable.row) :=
  let ids := [] in
  let genres := [] in
  '(ids, genres) ← for_each get_genres_step (ids, genres) (Str.readlines content);
  DataFrame genres ids.

(** [get_matched_midi], on what [os.walk(midi_folder)] yields: for each
    directory its name, its subdirectories and its files. *)
Definition get_matched_midi (walk : list (string * list string * list string))
    (genre_df : list GenreTable.row) : list PathRow :=
  let all_midi_df : list (string * string) :=
    '(dir_name, subdir_list, file_list) ← walk;
    if decide (String.length dir_name = 36%nat) then
      let track_id := Str.drop 18 dir_name in
      let file_path_list := (λ file, Str.join "/" [dir_name; file]) <$> file_list in
      (λ file_path, (track_id, file_path)) <$> file_path_list
    else [] in
  (* pd.merge(all_midi_df, genre_df, on='TrackID', how='inner'), in the
     order of the left keys, and then df.drop(["TrackID"], axis=1) *)
  '(track_id, file_path) ← all_midi_df;
  g ← genre_df;
  if decide (GenreTable.TrackID g = track_id)
  then [ {| Path := file_path; Genre := GenreTable.Genre g |} ]
  else [].

(** ** Step 5: separating features from labels *)

(** [a.shape[1]] for the array [np.array] makes of a list of equally long
    rows: an empty list gives a one-dimensional array, which has no second
    dimension. *)
Definition shape_1 (a : list (list Q)) : result nat :=
  match a with
  | [] => Raise IndexError
  | row :: _ => Ok (length row)
  end.

(** [x.astype(int)] on one value: truncation towards zero. *)
Definition astype_int (x : Q) : Z := Z.quot (Qnum x) (Z.pos (Qden x)).

(** [a[:, :j]] and [a[:, j]] on an array of [ncols] columns. *)
Definition columns_to (a : list (list Q)) (j : Z) : list (list Q) :=
  (λ row, slice_to row j) <$> a.

Definition column (ncols : nat) (a : list (list Q)) (j : Z) : result (list Q) :=
  if decide (- Z.of_nat ncols ≤ j < Z.of_nat ncols)
  then mapM (λ row, item_Z row j) a
  else Raise IndexError.

Record Dataset : Type := {
  training_features : list (list Q);
  training_labels : list Z;
  validation_features : list (list Q);
  validation_labels : list Z;
  test_features : list (list Q);
  test_labels : list Z
}.

(** Cell 10 up to the definition of [one_hot]: the shuffle, the three
    slices, and the separation of the last column.  Slicing rows keeps the
    second dimension, so [training_data.shape[1]] is that of the whole
    matrix. *)
Definition partition_and_separate (permutation : list (list Q) → list (list Q))
    (labeled_features : list (list Q)) : result Dataset :=
  '(training_data, validation_data, test_data) ←
    partition permutation labeled_features;
  ncols ← shape_1 (permutation labeled_features);
  let num_cols := Z.of_nat ncols - 1 in
  let training_features := columns_to training_data num_cols in
  let validation_features := columns_to validation_data num_cols in
  let test_features := columns_to test_data num_cols in
  training_labels ← fmap astype_int <$> column ncols training_data num_cols;
  validation_labels ← fmap astype_int <$> column ncols validation_data num_cols;
  test_labels ← fmap astype_int <$> column ncols test_data num_cols;
  mret {| training_features := training_features;
          training_labels := training_labels;
          validation_features := validation_features;
          validation_labels := validation_labels;
          test_features := test_features;
          test_labels := test_labels |}.

(** The labelled rows that a table of features and a list of class indices
    stand for. *)
Definition labeled_rows (features : list (list Q)) (labels : list Z) : list (list Q) :=
  zip_with (λ f c, f ++ [inject_Z c]) features labels.

(** A line of the genre table: fields separated by tabs. *)
Definition table_line (fields : list string) : string :=
  Str.join (String Str.tab EmptyString) fields +:+ String Str.newline EmptyString.


(** ** Auxiliary notions for the genre table *)

(** [list(s)]: the characters of a string. *)
Fixpoint chars (s : string) : list ascii :=
  match s with
  | EmptyString => []
  | String c s' => c :: chars s'
  end.

(** An entry of a genre table as it is written: a comment line, or a line
    of at least two tab-separated fields. *)
Inductive table_entry : Type :=
| Comment (text : string)
| Fields (x y : string) (more : list string).

Definition render_entry (e : table_entry) : string :=
  match e with
  | Comment text => String "#" text +:+ String Str.newline EmptyString
  | Fields x y more => table_line (x :: y :: more)
  end.

Definition render_table (entries : list table_entry) : string :=
  foldr (λ e s, render_entry e +:+ s) EmptyString entries.

Definition entry_row (e : table_entry) : option GenreTable.row :=
  match e with
  | Comment _ => None
  | Fields x y _ => Some {| GenreTable.TrackID := x; GenreTable.Genre := y |}
  end.

(** A field that [strip] and [split] leave alone: not empty, no tab or
    newline inside, no whitespace at either end. *)
Definition clean_field (s : string) : Prop :=
  s ≠ EmptyString ∧ (Str.tab ∉ chars s) ∧ (Str.newline ∉ chars s) ∧ Str.strip s = s.

Definition well_formed_entry (e : table_entry) : Prop :=
  match e with
  | Comment text => Str.newline ∉ chars text
  | Fields x y more =>
      Forall clean_field (x :: y :: more) ∧ (∀ s, x ≠ String "#" s)
  end.

(** A row of [w] feature values followed by a class index. *)
Definition labeled_row_of (w : nat) (row : list Q) : Prop :=
  ∃ f c, row = f ++ [inject_Z c] ∧ length f = w.

(** Content from which the loop of [get_genres] cannot return. *)
Definition doomed (content : string) : Prop :=
  ∀ ids genres, length ids = length genres →
    for_each get_genres_step (ids, genres) (Str.readlines content) = Raise ValueError.

(** A number with which the arithmetic of [normalize_features] stays
    within binary64.  Beyond it the true division of a Python [int] raises
    [OverflowError], which arithmetic on rationals does not show. *)
Definition in_binary64_range (x : Q) : Prop :=
  (inject_Z (- 2 ^ 1023) <= x)%Q ∧ (x <= inject_Z (2 ^ 1023))%Q.

(** Decidable side conditions on concrete data. *)
Ltac by_computation := apply (bool_decide_unpack _); vm_compute; exact I.

(** Sample data for the genre table, the matched files and the dataset. *)
Module Sample.

Definition genre_table : list table_entry :=
  [ Comment " tagtraum genre annotations";
    Fields "TRAAAAK128F9318786" "Pop_Rock" [];
    Fields "TRAAAAW128F429D538" "Rap" ["Electronic"];
    Fields "TRAAAED128E0783FAB" "Jazz" [] ].

Definition genre_df : list GenreTable.row :=
  [ {| GenreTable.TrackID := "TRAAAAK128F9318786"; GenreTable.Genre := "Pop_Rock" |};
    {| GenreTable.TrackID := "TRAAAAW128F429D538"; GenreTable.Genre := "Rap" |};
    {| GenreTable.TrackID := "TRAAAED128E0783FAB"; GenreTable.Genre := "Jazz" |} ].

Definition label_list : list string := ["Jazz"; "Rap"; "Pop_Rock"].

(** What [os.walk] yields: the root, a matched track with two files, and a
    track the genre table does not list. *)
Definition walk : list (string * list string * list string) :=
  [ ("lmd_matched", ["A"], []);
    ("lmd_matched/A/A/A/TRAAAAK128F9318786", [], ["plain.mid"; "corrupt.mid"]);
    ("lmd_matched/A/A/A/TRAAAZZ128F0000000", [], ["waltz.mid"]) ].

(** A decoder that knows one of the matched files. *)
Definition codec (path : string) : outcome MidiFile :=
  if decide (path = "lmd_matched/A/A/A/TRAAAAK128F9318786/plain.mid")
  then Returns [] Demo.plain_file
  else Fails (LibraryError "bad header").

(** Three labelled rows of four features. *)
Definition labeled_features : list (list Q) :=
  [ [0; 1; 2; 3; inject_Z 2]; [4; 5; 6; 7; inject_Z 0]; [8; 9; 10; 11; inject_Z 1] ]%Q.

End Sample.

(** * Properties *)

(** ** The result monad *)

Lemma bind_Ok {A B} (f : A → result B) (a : A) : (Ok a ≫= f) = f a.
Proof. reflexivity. Qed.

Lemma bind_Raise {A B} (f : A → result B) (e : exn) : (Raise e ≫= f) = Raise e.
Proof. reflexivity. Qed.

Lemma item_lookup {A} (l : list A) (i : nat) (x : A) :
  l !! i = Some x → item l i = Ok x.
Proof. unfold item. now intros ->. Qed.

(** ** Feature extraction *)

Section ExtractorFacts.

Variable PrettyMIDI : string → outcome MidiFile.

Lemma get_features_decoded path file tempo :
  warnings_as_errors (PrettyMIDI path) = Ok file →
  warnings_as_errors (estimate_tempo file) = Ok tempo →
  get_features PrettyMIDI path =
    Ok (Some [((tempo - 150) / 300)%Q;
              ((inject_Z (resolution file) - 260) / 400)%Q;
              ((inject_Z (first_time_signature file).1 - 3) / 8)%Q;
              ((inject_Z (first_time_signature file).2 - 3) / 8)%Q]).
Proof.
  intros Hfile Htempo. unfold get_features, first_time_signature.
  rewrite Hfile. simpl. rewrite Htempo. simpl.
  destruct (time_signature_changes file) as [|ts rest]; reflexivity.
Qed.

Lemma get_features_codec_raises path :
  raises (warnings_as_errors (PrettyMIDI path)) →
  get_features PrettyMIDI path = Ok None.
Proof.
  unfold get_features. destruct (warnings_as_errors (PrettyMIDI path)); simpl; tauto.
Qed.

Lemma get_features_tempo_raises path file :
  warnings_as_errors (PrettyMIDI path) = Ok file →
  raises (warnings_as_errors (estimate_tempo file)) →
  get_features PrettyMIDI path = Ok None.
Proof.
  intros Hfile. unfold get_features. rewrite Hfile. simpl.
  destruct (warnings_as_errors (estimate_tempo file)); simpl; tauto.
Qed.

(** Whatever the decoder does, [get_features] returns: a vector of four
    components or [None]. *)
Lemma get_features_cases path :
  (∃ v, get_features PrettyMIDI path = Ok (Some v) ∧ length v = 4%nat) ∨
  get_features PrettyMIDI path = Ok None.
Proof.
  destruct (warnings_as_errors (PrettyMIDI path)) as [file|e] eqn:Hfile.
  - destruct (warnings_as_errors (estimate_tempo file)) as [tempo|e] eqn:Htempo.
    + left. eexists. split; [by apply get_features_decoded | reflexivity].
    + right. eapply get_features_tempo_raises; [done | by rewrite Htempo].
  - right. apply get_features_codec_raises. by rewrite Hfile.
Qed.

Lemma get_features_returns path :
  ∃ features, get_features PrettyMIDI path = Ok features.
Proof. destruct (get_features_cases path) as [(v & -> & _) | ->]; eauto. Qed.

Lemma get_features_None_inv path :
  get_features PrettyMIDI path = Ok None →
  raises (file ← warnings_as_errors (PrettyMIDI path);
          warnings_as_errors (estimate_tempo file)).
Proof.
  destruct (warnings_as_errors (PrettyMIDI path)) as [file|e] eqn:Hfile; [|done].
  destruct (warnings_as_errors (estimate_tempo file)) as [tempo|e] eqn:Htempo.
  - rewrite (get_features_decoded _ _ _ Hfile Htempo). discriminate.
  - simpl. by rewrite Htempo.
Qed.

End ExtractorFacts.

(** C5: for a file the decoder and the tempo estimator accept without
    warning, [get_features] returns exactly four components,
    (tempo - 150)/300, (resolution - 260)/400, (numerator - 3)/8 and
    (denominator - 3)/8, the time signature being that of the first change
    event when there is one and 4/4 otherwise; the number of changes is read
    and does not appear in the vector. *)
Theorem get_features_vector (PrettyMIDI : string → outcome MidiFile)
    (path : string) (file : MidiFile) (tempo : Q) :
  PrettyMIDI path = Returns [] file →
  estimate_tempo file = Returns [] tempo →
  ∃ ts_1 ts_2 v,
    (ts_1, ts_2) = match time_signature_changes file with
                   | [] => (4, 4)
                   | ts :: _ => (numerator ts, denominator ts)
                   end ∧
    get_features PrettyMIDI path = Ok (Some v) ∧
    v = [((tempo - 150) / 300)%Q;
         ((inject_Z (resolution file) - 260) / 400)%Q;
         ((inject_Z ts_1 - 3) / 8)%Q;
         ((inject_Z ts_2 - 3) / 8)%Q] ∧
    length v = 4%nat.
Proof.
  intros Hfile Htempo.
  exists (first_time_signature file).1, (first_time_signature file).2. eexists.
  split; [|split; [|split; reflexivity]].
  - unfold first_time_signature. by destruct (time_signature_changes file).
  - apply get_features_decoded; [by rewrite Hfile | by rewrite Htempo].
Qed.

(** C9: [get_features] never raises: for every path it returns a
    four-component vector or [None].  Every decode-time anomaly becomes the
    [None] signal: an exception of the decoder (malformed header, truncated
    stream, unsupported chunk), a warning of the decoder, an exception of
    the tempo estimator and a warning of the tempo estimator each give
    [None]; and [None] is returned in these cases only, never for a file
    that is decoded and estimated without warning. *)
Theorem get_features_total (PrettyMIDI : string → outcome MidiFile) (path : string) :
  ¬ raises (get_features PrettyMIDI path) ∧
  ((∃ v, get_features PrettyMIDI path = Ok (Some v) ∧ length v = 4%nat) ∨
   get_features PrettyMIDI path = Ok None) ∧
  (∀ e, PrettyMIDI path = Fails e → get_features PrettyMIDI path = Ok None) ∧
  (∀ w ws file, PrettyMIDI path = Returns (w :: ws) file →
                get_features PrettyMIDI path = Ok None) ∧
  (∀ file e, PrettyMIDI path = Returns [] file → estimate_tempo file = Fails e →
             get_features PrettyMIDI path = Ok None) ∧
  (∀ file w ws tempo,
     PrettyMIDI path = Returns [] file →
     estimate_tempo file = Returns (w :: ws) tempo →
     get_features PrettyMIDI path = Ok None) ∧
  (∀ file tempo,
     PrettyMIDI path = Returns [] file → estimate_tempo file = Returns [] tempo →
     get_features PrettyMIDI path ≠ Ok None).
Proof.
  split; [|split; [|split; [|split; [|split; [|split]]]]].
  - destruct (get_features_returns PrettyMIDI path) as [features ->]. by intros [].
  - apply get_features_cases.
  - intros e He. apply get_features_codec_raises. by rewrite He.
  - intros w ws file Hfile. apply get_features_codec_raises. by rewrite Hfile.
  - intros file e Hfile Htempo.
    apply (get_features_tempo_raises _ _ file); [by rewrite Hfile|by rewrite Htempo].
  - intros file w ws tempo Hfile Htempo.
    apply (get_features_tempo_raises _ _ file); [by rewrite Hfile|by rewrite Htempo].
  - intros file tempo Hfile Htempo.
    rewrite (get_features_decoded _ _ file tempo);
      [discriminate|by rewrite Hfile|by rewrite Htempo].
Qed.

Lemma get_features_vector_witness :
  ∃ ts_1 ts_2 v,
    (ts_1, ts_2) = (3, 4) ∧
    get_features Demo.codec "waltz.mid" = Ok (Some v) ∧
    v = [((180 - 150) / 300)%Q; ((inject_Z 480 - 260) / 400)%Q;
         ((inject_Z ts_1 - 3) / 8)%Q; ((inject_Z ts_2 - 3) / 8)%Q] ∧
    length v = 4%nat.
Proof.
  apply (get_features_vector Demo.codec "waltz.mid" Demo.waltz_file 180%Q);
    reflexivity.
Defined.

Example get_features_plain :
  get_features Demo.codec "plain.mid" =
    Ok (Some [((120 - 150) / 300)%Q; ((inject_Z 120 - 260) / 400)%Q;
              ((inject_Z 4 - 3) / 8)%Q; ((inject_Z 4 - 3) / 8)%Q]).
Proof. reflexivity. Qed.

Example get_features_anomalies :
  get_features Demo.codec "corrupt.mid" = Ok None ∧
  get_features Demo.codec "warns.mid" = Ok None ∧
  get_features Demo.codec "silent.mid" = Ok None.
Proof. repeat split. Qed.

(** ** The dataset builder *)

Section BuilderFacts.

Variable PrettyMIDI : string → outcome MidiFile.
Variable label_list : list string.

Lemma extract_loop_spec (rows : list PathRow) (all_features : list (list Q)) :
  (∀ row, row ∈ rows → is_Some (label_dict label_list !! Genre row)) →
  extract_loop PrettyMIDI label_list rows all_features =
    Ok (all_features ++ omap (labeled_row PrettyMIDI label_list) rows).
Proof.
  revert all_features.
  induction rows as [|row rest IH]; intros acc Hknown; simpl.
  - by rewrite app_nil_r.
  - destruct (Hknown row) as [genre Hgenre]; [left|].
    unfold labeled_row at 1, getitem. rewrite Hgenre.
    destruct (get_features_returns PrettyMIDI (Path row)) as [features ->]. simpl.
    destruct features as [features|];
      rewrite IH by (intros r Hr; apply Hknown; by right).
    + by rewrite <- app_assoc.
    + done.
Qed.

Lemma labeled_row_failure (row : PathRow) :
  get_features PrettyMIDI (Path row) = Ok None →
  labeled_row PrettyMIDI label_list row = None.
Proof. unfold labeled_row. by intros ->. Qed.

End BuilderFacts.

(** The loop over a table in two parts. *)
Lemma extract_loop_app PrettyMIDI label_list (rows1 rows2 : list PathRow) acc :
  extract_loop PrettyMIDI label_list (rows1 ++ rows2) acc =
    (acc' ← extract_loop PrettyMIDI label_list rows1 acc;
     extract_loop PrettyMIDI label_list rows2 acc').
Proof.
  revert acc. induction rows1 as [|row rows1 IH]; intros acc; simpl; [done|].
  destruct (get_features PrettyMIDI (Path row)) as [features|e]; simpl; [|done].
  destruct (getitem (label_dict label_list) (Genre row)) as [genre|e]; simpl; [|done].
  destruct features; apply IH.
Qed.

(** C6, as the code has it: when every genre of the path table is a key of
    [label_dict], [extract_midi_features] returns the labelled rows of the
    files that were extracted, in the order of the table; a row whose
    extraction gave [None] leaves nothing behind, so the result is the one
    the table without that row gives, and no failed extraction aborts the
    run.  A row whose genre is not a key of [label_dict] does abort it, with
    [KeyError], whether or not its file can be decoded: the genre is looked
    up before the outcome of the extraction is examined. *)
Theorem extract_midi_features_skips_failures
    (PrettyMIDI : string → outcome MidiFile) (label_list : list string)
    (path_df : list PathRow) :
  (∀ row, row ∈ path_df → is_Some (label_dict label_list !! Genre row)) →
  extract_midi_features PrettyMIDI label_list path_df =
    Ok (omap (labeled_row PrettyMIDI label_list) path_df) ∧
  (∀ before bad after,
     path_df = before ++ bad :: after →
     get_features PrettyMIDI (Path bad) = Ok None →
     extract_midi_features PrettyMIDI label_list path_df =
       extract_midi_features PrettyMIDI label_list (before ++ after)) ∧
  (∀ bad after,
     label_dict label_list !! Genre bad = None →
     extract_midi_features PrettyMIDI label_list (path_df ++ bad :: after) =
       Raise KeyError).
Proof.
  intros Hknown. unfold extract_midi_features. split; [|split].
  - by rewrite extract_loop_spec.
  - intros before bad after -> Hbad.
    rewrite !extract_loop_spec; [| |done].
    2:{ intros r [Hr|Hr]%elem_of_app; apply Hknown, elem_of_app;
        [by left | by right; right]. }
    rewrite !omap_app. simpl. by rewrite labeled_row_failure.
  - intros bad after Hbad.
    rewrite extract_loop_app, extract_loop_spec by done.
    cbn [mbind result_bind extract_loop].
    destruct (get_features_returns PrettyMIDI (Path bad)) as [features ->].
    unfold getitem. rewrite Hbad. reflexivity.
Qed.

Lemma extract_midi_features_skips_failures_witness :
  extract_midi_features Demo.codec Demo.labels Demo.rows =
    Ok (omap (labeled_row Demo.codec Demo.labels) Demo.rows) ∧
  (∀ before bad after,
     Demo.rows = before ++ bad :: after →
     get_features Demo.codec (Path bad) = Ok None →
     extract_midi_features Demo.codec Demo.labels Demo.rows =
       extract_midi_features Demo.codec Demo.labels (before ++ after)) ∧
  (∀ bad after,
     label_dict Demo.labels !! Genre bad = None →
     extract_midi_features Demo.codec Demo.labels (Demo.rows ++ bad :: after) =
       Raise KeyError).
Proof.
  apply (extract_midi_features_skips_failures Demo.codec Demo.labels Demo.rows).
  intros row Hrow. unfold Demo.rows in Hrow.
  repeat (apply elem_of_cons in Hrow as [->|Hrow]); [| | |by apply elem_of_nil in Hrow];
    vm_compute; eauto.
Defined.

(** A corrupt file in a row whose genre is not in the vocabulary is not
    dropped: the run is aborted, and the two valid rows are lost with it.
    C6 does not hold for every input sequence. *)
Lemma extract_midi_features_corrupt_row_aborts :
  get_features Demo.codec "corrupt.mid" = Ok None ∧
  label_dict Demo.labels !! "Polka" = None ∧
  extract_midi_features Demo.codec Demo.labels
    [ {| Path := "plain.mid"; Genre := "B" |};
      {| Path := "corrupt.mid"; Genre := "Polka" |};
      {| Path := "waltz.mid"; Genre := "D" |} ] = Raise KeyError ∧
  (∀ matrix,
     extract_midi_features Demo.codec Demo.labels
       [ {| Path := "plain.mid"; Genre := "B" |};
         {| Path := "corrupt.mid"; Genre := "Polka" |};
         {| Path := "waltz.mid"; Genre := "D" |} ] ≠ Ok matrix).
Proof.
  split; [reflexivity|]. split; [reflexivity|]. split; [reflexivity|].
  intros matrix. discriminate.
Qed.

(** The scenario of the specification: three rows, the second corrupt. *)
Example extract_three_rows_one_corrupt :
  extract_midi_features Demo.codec Demo.labels Demo.rows =
    Ok [ [((120 - 150) / 300)%Q; ((inject_Z 120 - 260) / 400)%Q;
          ((inject_Z 4 - 3) / 8)%Q; ((inject_Z 4 - 3) / 8)%Q; inject_Z 1];
         [((180 - 150) / 300)%Q; ((inject_Z 480 - 260) / 400)%Q;
          ((inject_Z 3 - 3) / 8)%Q; ((inject_Z 4 - 3) / 8)%Q; inject_Z 3] ].
Proof. vm_compute. reflexivity. Qed.

(** ** One-hot labels *)

Section OneHotFacts.

Variable label_list : list string.

Lemma mapM_Ok_length {A B} (f : A → result B) (l : list A) (k : list B) :
  mapM f l = Ok k → length k = length l.
Proof.
  revert k. induction l as [|x l IH]; intros k; simpl.
  - by intros [= <-].
  - destruct (f x) as [y|e]; simpl; [|discriminate].
    destruct (mapM f l) as [k'|e]; simpl; [|discriminate].
    intros [= <-]. simpl. by rewrite (IH k').
Qed.

Lemma mapM_Ok_lookup {A B} (f : A → result B) (l : list A) (k : list B) i x :
  mapM f l = Ok k → l !! i = Some x → ∃ y, k !! i = Some y ∧ f x = Ok y.
Proof.
  revert k i. induction l as [|x' l IH]; intros k i; simpl; [done|].
  destruct (f x') as [y'|e] eqn:Hy; simpl; [|discriminate].
  destruct (mapM f l) as [k'|e]; simpl; [|discriminate].
  intros [= <-]. destruct i as [|i]; simpl.
  - intros [= <-]. eauto.
  - by apply IH.
Qed.

Lemma mapM_all_Ok {A B} (f : A → result B) (l : list A) :
  (∀ x, x ∈ l → ∃ y, f x = Ok y) → ∃ k, mapM f l = Ok k.
Proof.
  induction l as [|x l IH]; intros Hall; simpl; [by eexists|].
  destruct (Hall x) as [y ->]; [by left|]. simpl.
  destruct IH as [k ->]; [|by eexists].
  intros x' Hx'. apply Hall. by right.
Qed.

Lemma eye_lookup (n c : nat) :
  (c < n)%nat → eye n !! c = Some (one_hot_vector n c).
Proof.
  intros Hc. unfold eye. rewrite list_lookup_fmap, lookup_seq_lt by done.
  reflexivity.
Qed.

Lemma eye_length (n : nat) : length (eye n) = n.
Proof. unfold eye. by rewrite length_fmap, length_seq. Qed.

Lemma one_hot_length (labels : list Z) (hot : list (list Z)) :
  one_hot label_list labels = Ok hot → length hot = length labels.
Proof. apply mapM_Ok_length. Qed.

(** Row [i] of [one_hot(labels)] is [one_hot([labels[i]])[0]]. *)
Lemma one_hot_lookup (labels : list Z) (hot : list (list Z)) i l :
  one_hot label_list labels = Ok hot → labels !! i = Some l →
  ∃ h, hot !! i = Some h ∧ one_hot label_list [l] = Ok [h].
Proof.
  intros Hhot Hl.
  destruct (mapM_Ok_lookup _ _ _ _ _ Hhot Hl) as (h & Hh & Heye).
  exists h. split; [done|]. unfold one_hot. simpl. by rewrite Heye.
Qed.

(** For a class index in range the row is the indicator of that class. *)
Lemma one_hot_single (l : Z) (h : list Z) :
  one_hot label_list [l] = Ok [h] → 0 ≤ l →
  h = one_hot_vector (num_classes label_list) (Z.to_nat l).
Proof.
  unfold one_hot, item_Z, item. simpl. intros Hh Hl.
  rewrite (proj2 (Z.leb_le 0 l) Hl) in Hh.
  destruct (eye (num_classes label_list) !! Z.to_nat l) as [h'|] eqn:Hrow;
    simpl in Hh; [|discriminate].
  injection Hh as <-.
  apply lookup_lt_Some in Hrow as Hlt. rewrite eye_length in Hlt.
  rewrite eye_lookup in Hrow by done. congruence.
Qed.

(** Class indices in range always have a one-hot encoding. *)
Lemma one_hot_in_range (labels : list Z) :
  (∀ l, l ∈ labels → 0 ≤ l < Z.of_nat (num_classes label_list)) →
  ∃ hot, one_hot label_list labels = Ok hot.
Proof.
  intros Hrange. apply mapM_all_Ok. intros l Hl. apply Hrange in Hl.
  unfold item_Z. rewrite (proj2 (Z.leb_le 0 l)) by lia.
  destruct (lookup_lt_is_Some_2 (eye (num_classes label_list)) (Z.to_nat l))
    as [h Hh]; [rewrite eye_length; lia|].
  exists h. by apply item_lookup.
Qed.

End OneHotFacts.

(** ** Scoring *)

Section ScoringFacts.

Variable label_list : list string.

Lemma validation_step_dense predict v_labels v_labels_hot preds count i h y :
  v_labels_hot !! i = Some h → preds !! i = Some y →
  validation_step (FittedMLP predict) v_labels v_labels_hot (Rows preds) count i =
    Ok (if decide (y = h) then S count else count).
Proof.
  intros Hh Hy. unfold validation_step.
  rewrite (item_lookup _ _ _ Hh), (item_lookup _ _ _ Hy). simpl.
  unfold array_equal, mret, result_ret.
  destruct (decide (y = h)) as [->|Hne].
  - by rewrite bool_decide_eq_true_2.
  - by rewrite bool_decide_eq_false_2.
Qed.

Lemma validation_step_scalar predict v_labels v_labels_hot preds count i l y :
  v_labels !! i = Some l → preds !! i = Some y →
  validation_step (FittedSVC predict) v_labels v_labels_hot (Indices preds) count i =
    Ok (if decide (l = y) then S count else count).
Proof.
  intros Hl Hy. unfold validation_step.
  by rewrite (item_lookup _ _ _ Hl), (item_lookup _ _ _ Hy).
Qed.

(** The scoring loop of a fitted [MLPClassifier] counts the exact matches. *)
Lemma validation_count_dense predict v_labels hot preds (n k count : nat) :
  (k + n ≤ length hot)%nat → (k + n ≤ length preds)%nat →
  for_each (validation_step (FittedMLP predict) v_labels hot (Rows preds))
           count (seq k n) =
    Ok (count + exact_matches (take n (drop k hot)) (take n (drop k preds)))%nat.
Proof.
  revert k count. induction n as [|n IH]; intros k count Hhot Hpreds.
  - simpl. unfold exact_matches. simpl. f_equal. lia.
  - destruct (lookup_lt_is_Some_2 hot k) as [h Hh]; [lia|].
    destruct (lookup_lt_is_Some_2 preds k) as [y Hy]; [lia|].
    cbn [seq for_each]. rewrite (validation_step_dense _ _ _ _ _ _ _ _ Hh Hy).
    rewrite bind_Ok, IH by lia.
    rewrite (drop_S _ _ _ Hh), (drop_S _ _ _ Hy). unfold exact_matches.
    cbn [take zip zip_with]. rewrite filter_cons. cbn [fst snd].
    destruct (decide (y = h)); cbn [length]; f_equal; lia.
Qed.

(** The scoring loop of a fitted [SVC] counts the equal class indices. *)
Lemma validation_count_scalar predict v_labels hot preds (n k count : nat) :
  (k + n ≤ length v_labels)%nat → (k + n ≤ length preds)%nat →
  for_each (validation_step (FittedSVC predict) v_labels hot (Indices preds))
           count (seq k n) =
    Ok (count + index_matches (take n (drop k v_labels)) (take n (drop k preds)))%nat.
Proof.
  revert k count. induction n as [|n IH]; intros k count Hlabels Hpreds.
  - simpl. unfold index_matches. simpl. f_equal. lia.
  - destruct (lookup_lt_is_Some_2 v_labels k) as [l Hl]; [lia|].
    destruct (lookup_lt_is_Some_2 preds k) as [y Hy]; [lia|].
    cbn [seq for_each]. rewrite (validation_step_scalar _ _ _ _ _ _ _ _ Hl Hy).
    rewrite bind_Ok, IH by lia.
    rewrite (drop_S _ _ _ Hl), (drop_S _ _ _ Hy). unfold index_matches.
    cbn [take zip zip_with]. rewrite filter_cons. cbn [fst snd].
    destruct (decide (l = y)); cbn [length]; f_equal; lia.
Qed.

(** What the validation scoring returns for each kind of model, when the
    model predicts one output per validation example. *)
Lemma validation_accuracy_dense predict v_features v_labels hot preds :
  predict (Some <$> v_features) = Ok preds →
  length preds = length v_labels → length hot = length v_labels →
  validation_accuracy (FittedMLP predict) v_features v_labels hot =
    truediv (exact_matches hot preds) (length v_labels).
Proof.
  intros Hpreds Hlen Hhot. unfold validation_accuracy. simpl. rewrite Hpreds. simpl.
  rewrite validation_count_dense by lia. simpl.
  rewrite drop_0, <- Hhot at 1. rewrite <- Hlen, !firstn_all. by rewrite Hhot, Hlen.
Qed.

Lemma validation_accuracy_scalar predict v_features v_labels hot preds :
  predict (Some <$> v_features) = Ok preds →
  length preds = length v_labels → length hot = length v_labels →
  validation_accuracy (FittedSVC predict) v_features v_labels hot =
    truediv (index_matches v_labels preds) (length v_labels).
Proof.
  intros Hpreds Hlen Hhot. unfold validation_accuracy. simpl. rewrite Hpreds. simpl.
  rewrite validation_count_scalar by lia. simpl.
  rewrite !drop_0, firstn_all, <- Hlen, firstn_all. by rewrite Hhot, Hlen.
Qed.

Lemma test_step_validation_step clf labels hot preds count i :
  test_step clf labels hot preds count i =
  validation_step clf labels hot preds count i.
Proof. unfold test_step, validation_step. by destruct clf, preds. Qed.

Lemma for_each_ext {S A} (f g : S → A → result S) (s : S) (l : list A) :
  (∀ s x, f s x = g s x) → for_each f s l = for_each g s l.
Proof.
  intros Hfg. revert s. induction l as [|x l IH]; intros s; simpl; [done|].
  rewrite Hfg. destruct (g s x); simpl; auto.
Qed.

End ScoringFacts.

(** The one-hot rows of class indices of the vocabulary. *)
Lemma one_hot_expansions (label_list : list string) (labels : list Z) :
  (∀ l, l ∈ labels → 0 ≤ l < Z.of_nat (num_classes label_list)) →
  one_hot label_list labels =
    Ok ((λ l, one_hot_vector (num_classes label_list) (Z.to_nat l)) <$> labels).
Proof.
  unfold one_hot. induction labels as [|l labels IH]; intros Hrange; [done|].
  cbn [mapM fmap list_fmap].
  assert (item_Z (eye (num_classes label_list)) l =
          Ok (one_hot_vector (num_classes label_list) (Z.to_nat l))) as ->.
  { destruct (Hrange l) as [Hl Hn]; [by left|].
    unfold item_Z. rewrite (proj2 (Z.leb_le 0 l) Hl).
    apply item_lookup, eye_lookup. lia. }
  rewrite IH by (intros l' Hl'; apply Hrange; by right). reflexivity.
Qed.

Lemma exact_matches_expansions (n : nat) (labels : list Z) (preds : list (list Z)) :
  exact_matches ((λ l, one_hot_vector n (Z.to_nat l)) <$> labels) preds =
    length (filter (λ ly : Z * list Z, ly.2 = one_hot_vector n (Z.to_nat ly.1))
                   (zip labels preds)).
Proof.
  unfold exact_matches. revert preds.
  induction labels as [|l labels IH]; intros [|y preds]; try reflexivity.
  cbn [fmap list_fmap zip zip_with]. rewrite !filter_cons. cbn [fst snd].
  fold (zip ((λ l, one_hot_vector n (Z.to_nat l)) <$> labels) preds).
  fold (zip labels preds).
  destruct (decide (y = one_hot_vector n (Z.to_nat l))); cbn [length];
    by rewrite (IH preds).
Qed.

(** C1: when [train_model] fits and scores an [MLPClassifier], a validation
    example with label [l] and prediction [y] is counted correct exactly
    when [y] is equal, element for element, to the one-hot expansion of [l]
    (the indicator vector of [l] among [num_classes] classes): the accuracy
    of the candidate is the number of these examples divided by the number
    of validation examples, and at example [i] the body of the scoring loop
    increments the counter in that case and leaves it alone otherwise. *)
Theorem dense_scoring_exact_match (label_list : list string)
    (fit : list (list Q) → list (list Z) → result (list sample → result (list (list Z))))
    (predict : list sample → result (list (list Z)))
    (t_features : list (list Q)) (t_labels : list Z) (t_labels_hot : list (list Z))
    (v_features : list (list Q)) (v_labels : list Z) (preds : list (list Z)) :
  one_hot label_list t_labels = Ok t_labels_hot →
  fit t_features t_labels_hot = Ok predict →
  predict (Some <$> v_features) = Ok preds →
  length preds = length v_labels →
  v_labels ≠ [] →
  (∀ l, l ∈ v_labels → 0 ≤ l < Z.of_nat (num_classes label_list)) →
  let expansion (l : Z) := one_hot_vector (num_classes label_list) (Z.to_nat l) in
  evaluate label_list t_features t_labels v_features v_labels (MLPClassifier fit) =
    Ok (FittedMLP predict,
        Qmake (Z.of_nat (length (filter (λ ly : Z * list Z, ly.2 = expansion ly.1)
                                        (zip v_labels preds))))
              (Pos.of_nat (length v_labels))) ∧
  ∃ v_labels_hot,
    one_hot label_list v_labels = Ok v_labels_hot ∧
    ∀ i l y count,
      v_labels !! i = Some l → preds !! i = Some y →
      validation_step (FittedMLP predict) v_labels v_labels_hot (Rows preds) count i =
        Ok (if decide (y = expansion l) then S count else count).
Proof.
  intros Ht_hot Hfit Hpreds Hlen Hne Hrange expansion.
  pose proof (one_hot_expansions label_list v_labels Hrange) as Hv_hot.
  fold expansion in Hv_hot. split.
  - unfold evaluate. rewrite Ht_hot, Hv_hot. cbn [mbind result_bind].
    rewrite Hfit. cbn [fmap result_fmap mbind result_bind].
    rewrite (validation_accuracy_dense _ _ _ _ preds Hpreds Hlen)
      by (by rewrite length_fmap).
    unfold expansion. rewrite exact_matches_expansions.
    destruct v_labels; [done|]. reflexivity.
  - exists (expansion <$> v_labels). split; [done|].
    intros i l y count Hl Hy.
    apply validation_step_dense; [|done].
    by rewrite list_lookup_fmap, Hl.
Qed.

Lemma dense_scoring_exact_match_witness :
  let expansion (l : Z) := one_hot_vector (num_classes Demo.labels) (Z.to_nat l) in
  evaluate Demo.labels [[0%Q]; [1%Q]] [0; 2] [[2%Q]; [3%Q]] [2; 1]
           (Demo.mlp_always [0; 1; 1; 0]) =
    Ok (Demo.constant [0; 1; 1; 0],
        Qmake (Z.of_nat (length (filter (λ ly : Z * list Z, ly.2 = expansion ly.1)
                                        (zip [2; 1] [[0; 1; 1; 0]; [0; 1; 1; 0]]))))
              (Pos.of_nat (length [2; 1]))) ∧
  ∃ v_labels_hot,
    one_hot Demo.labels [2; 1] = Ok v_labels_hot ∧
    ∀ i l y count,
      [2; 1] !! i = Some l → [[0; 1; 1; 0]; [0; 1; 1; 0]] !! i = Some y →
      validation_step (Demo.constant [0; 1; 1; 0]) [2; 1] v_labels_hot
                      (Rows [[0; 1; 1; 0]; [0; 1; 1; 0]]) count i =
        Ok (if decide (y = expansion l) then S count else count).
Proof.
  apply (dense_scoring_exact_match Demo.labels (Demo.fit_rows [0; 1; 1; 0])
           (λ X, Ok ((λ _, [0; 1; 1; 0]) <$> X))
           [[0%Q]; [1%Q]] [0; 2] [[1; 0; 0; 0]; [0; 0; 1; 0]]
           [[2%Q]; [3%Q]] [2; 1] [[0; 1; 1; 0]; [0; 1; 1; 0]]);
    try reflexivity.
  - discriminate.
  - intros l Hl.
    repeat (apply elem_of_cons in Hl as [->|Hl]); [| |by apply elem_of_nil in Hl];
      vm_compute; split; congruence.
Defined.

(** A prediction with the right top class and one more entry set is
    counted wrong: the rule is stricter than top-1 accuracy. *)
Example argmax_equal_counted_wrong :
  argmax [0; 1; 1; 0] = argmax (one_hot_vector 4 1) ∧
  validation_accuracy (Demo.constant [0; 1; 1; 0]) [[0%Q]] [1] [one_hot_vector 4 1]
    = Ok 0%Q ∧
  validation_accuracy (Demo.constant [0; 1; 0; 0]) [[0%Q]] [1] [one_hot_vector 4 1]
    = Ok 1%Q.
Proof. repeat split. Qed.

(** C7: on features and labels of equal length, [calculate_accuracy]
    returns what the validation scoring of [train_model] returns for the
    same fitted model: the loop bodies agree at every step (vector equality
    with the one-hot row for an [MLPClassifier], equality of class indices
    for an [SVC]), the loops run over the same range, and the counts are
    divided by the same length.  When the labels have no one-hot encoding
    both fail. *)
Theorem calculate_accuracy_same_rule (label_list : list string)
    (clf : classifier) (features : list (list Q)) (labels : list Z) :
  length features = length labels →
  (∀ preds count i hot,
     test_step clf labels hot preds count i =
     validation_step clf labels hot preds count i) ∧
  (∀ hot, one_hot label_list labels = Ok hot →
     calculate_accuracy label_list clf features labels =
     validation_accuracy clf features labels hot) ∧
  (raises (one_hot label_list labels) →
     raises (calculate_accuracy label_list clf features labels) ∧
     raises (hot ← one_hot label_list labels;
             validation_accuracy clf features labels hot)).
Proof.
  intros Hlen. split; [|split].
  - intros. apply test_step_validation_step.
  - intros hot Hhot. unfold calculate_accuracy, validation_accuracy.
    rewrite Hhot. apply one_hot_length in Hhot as Hhotlen.
    destruct (predict clf (Some <$> features)) as [preds|e]; simpl; [|done].
    rewrite Hlen, Hhotlen.
    rewrite (for_each_ext _ (validation_step clf labels hot preds)); [done|].
    intros. apply test_step_validation_step.
  - unfold calculate_accuracy.
    destruct (one_hot label_list labels) as [hot|e]; simpl; [done|].
    by destruct (predict clf (Some <$> features)).
Qed.

Lemma calculate_accuracy_same_rule_witness :
  (∀ preds count i hot,
     test_step (Demo.constant [0; 0; 1; 0]) [2; 1] hot preds count i =
     validation_step (Demo.constant [0; 0; 1; 0]) [2; 1] hot preds count i) ∧
  (∀ hot, one_hot Demo.labels [2; 1] = Ok hot →
     calculate_accuracy Demo.labels (Demo.constant [0; 0; 1; 0]) [[0%Q]; [1%Q]] [2; 1] =
     validation_accuracy (Demo.constant [0; 0; 1; 0]) [[0%Q]; [1%Q]] [2; 1] hot) ∧
  (raises (one_hot Demo.labels [2; 1]) →
     raises (calculate_accuracy Demo.labels (Demo.constant [0; 0; 1; 0]) [[0%Q]; [1%Q]] [2; 1]) ∧
     raises (hot ← one_hot Demo.labels [2; 1];
             validation_accuracy (Demo.constant [0; 0; 1; 0]) [[0%Q]; [1%Q]] [2; 1] hot)).
Proof.
  apply (calculate_accuracy_same_rule Demo.labels (Demo.constant [0; 0; 1; 0])
           [[0%Q]; [1%Q]] [2; 1]).
  reflexivity.
Defined.

Example accuracies_agree :
  calculate_accuracy Demo.labels (Demo.constant [0; 0; 1; 0]) [[0%Q]; [1%Q]] [2; 1]
    = Ok (1 # 2)%Q ∧
  validation_accuracy (Demo.constant [0; 0; 1; 0]) [[0%Q]; [1%Q]] [2; 1]
                      [[0; 0; 1; 0]; [0; 1; 0; 0]]
    = Ok (1 # 2)%Q ∧
  calculate_accuracy Demo.labels (Demo.constant_svc 1) [[0%Q]; [1%Q]; [2%Q]] [2; 1; 1]
    = Ok (2 # 3)%Q ∧
  validation_accuracy (Demo.constant_svc 1) [[0%Q]; [1%Q]; [2%Q]] [2; 1; 1]
                      [[0; 0; 1; 0]; [0; 1; 0; 0]; [0; 1; 0; 0]]
    = Ok (2 # 3)%Q.
Proof. repeat split. Qed.

(** ** Model selection *)

Section SelectionFacts.

Variable label_list : list string.
Variables (t_features : list (list Q)) (t_labels : list Z).
Variables (v_features : list (list Q)) (v_labels : list Z).

Local Abbreviation eval :=
  (evaluate label_list t_features t_labels v_features v_labels).
Local Abbreviation step :=
  (train_step label_list t_features t_labels v_features v_labels).

Lemma Qgt_bool_true (a b : Q) : Qgt_bool a b = true ↔ (b < a)%Q.
Proof.
  unfold Qgt_bool. rewrite negb_true_iff, <- not_true_iff_false, Qle_bool_iff.
  split; [apply Qnot_le_lt | apply Qlt_not_le].
Qed.

Lemma Qgt_bool_false (a b : Q) : Qgt_bool a b = false ↔ (a <= b)%Q.
Proof. unfold Qgt_bool. by rewrite negb_false_iff, Qle_bool_iff. Qed.

Lemma train_step_keep_best clf r best :
  eval clf = Ok r → step best clf = Ok (keep_best best r).
Proof.
  intros Hclf. unfold train_step, keep_best. rewrite Hclf. destruct r as [fitted acc].
  simpl. by destruct (Qgt_bool acc best.2).
Qed.

(** The loop over candidates is a left fold of [keep_best] over the
    candidates' evaluations. *)
Lemma for_each_train_step clfs results best :
  Forall2 (λ clf r, eval clf = Ok r) clfs results →
  for_each step best clfs = Ok (foldl keep_best best results).
Proof.
  intros Hall. revert best.
  induction Hall as [|clf r clfs results Hclf _ IH]; intros best;
    cbn [for_each foldl]; [done|].
  rewrite (train_step_keep_best _ _ _ Hclf). apply IH.
Qed.

Lemma keep_best_dominated results best :
  (∀ r, r ∈ results → (r.2 <= best.2)%Q) →
  foldl keep_best best results = best.
Proof.
  revert best. induction results as [|r results IH]; intros best Hle; simpl; [done|].
  unfold keep_best at 2.
  rewrite (proj2 (Qgt_bool_false r.2 best.2)) by (apply Hle; by left).
  apply IH. intros r' Hr'. apply Hle. by right.
Qed.

Lemma keep_best_below results best (bound : Q) :
  (best.2 < bound)%Q →
  (∀ r, r ∈ results → (r.2 < bound)%Q) →
  ((foldl keep_best best results).2 < bound)%Q.
Proof.
  revert best. induction results as [|r results IH]; intros best Hbest Hlt; simpl;
    [done|].
  apply IH.
  - unfold keep_best. destruct (Qgt_bool r.2 best.2); simpl; [|done].
    apply Hlt. by left.
  - intros r' Hr'. apply Hlt. by right.
Qed.

(** With a positive best score, the first candidate that reaches it is
    kept. *)
Lemma keep_best_first_maximum before after fitted acc :
  (0 < acc)%Q →
  (∀ r, r ∈ before → (r.2 < acc)%Q) →
  (∀ r, r ∈ after → (r.2 <= acc)%Q) →
  foldl keep_best (None, 0%Q) (before ++ (fitted, acc) :: after) = (Some fitted, acc).
Proof.
  intros Hpos Hbefore Hafter. rewrite foldl_app. simpl.
  pose proof (keep_best_below before (None, 0%Q) acc Hpos Hbefore) as Hlt.
  unfold keep_best at 2. simpl.
  rewrite (proj2 (Qgt_bool_true acc _) Hlt).
  by apply keep_best_dominated.
Qed.

Lemma train_model_on_first_maximum clfs before after fitted acc :
  Forall2 (λ clf r, eval clf = Ok r) clfs (before ++ (fitted, acc) :: after) →
  (0 < acc)%Q →
  (∀ r, r ∈ before → (r.2 < acc)%Q) →
  (∀ r, r ∈ after → (r.2 <= acc)%Q) →
  train_model_on label_list clfs t_features t_labels v_features v_labels =
    Ok {| printed_best_accuracy := acc; returned_clf := Some fitted |}.
Proof.
  intros Hall Hpos Hbefore Hafter. unfold train_model_on.
  rewrite (for_each_train_step _ _ _ Hall).
  by rewrite keep_best_first_maximum.
Qed.

(** Candidates that all evaluate to a score equal to 0 give evaluations
    that never exceed 0. *)
Lemma evaluations_all_zero clfs :
  (∀ clf, clf ∈ clfs → ∃ fitted acc, eval clf = Ok (fitted, acc) ∧ (acc == 0)%Q) →
  ∃ results, Forall2 (λ clf r, eval clf = Ok r) clfs results ∧
             ∀ r, r ∈ results → (r.2 <= 0)%Q.
Proof.
  intros Hzero. induction clfs as [|clf clfs IH].
  - exists []. split; [constructor|]. by intros r Hr%elem_of_nil.
  - destruct (Hzero clf) as (fitted & acc & Hclf & Hacc); [by left|].
    destruct IH as (results & Hall & Hle).
    { intros c Hc. apply Hzero. by right. }
    exists ((fitted, acc) :: results). split; [by constructor|].
    intros r [->|Hr]%elem_of_cons; [|by apply Hle].
    simpl. rewrite Hacc. apply Qle_refl.
Qed.

End SelectionFacts.

(** C10: when every candidate is fitted and scored and every validation
    accuracy is 0, [train_model] returns [None] and prints 0: the best
    accuracy starts at 0 with no model and only a strictly greater accuracy
    replaces it. *)
Theorem train_model_all_zero_returns_None (label_list : list string)
    (clfs : list estimator)
    (t_features : list (list Q)) (t_labels : list Z)
    (v_features : list (list Q)) (v_labels : list Z) :
  (∀ clf, clf ∈ clfs →
     ∃ fitted acc,
       evaluate label_list t_features t_labels v_features v_labels clf
         = Ok (fitted, acc) ∧ (acc == 0)%Q) →
  train_model_on label_list clfs t_features t_labels v_features v_labels =
    Ok {| printed_best_accuracy := 0%Q; returned_clf := None |}.
Proof.
  intros Hzero.
  destruct (evaluations_all_zero _ _ _ _ _ _ Hzero) as (results & Hall & Hle).
  unfold train_model_on.
  (* the loop starts from (None, 0) and no evaluation is above 0 *)
  rewrite (for_each_train_step _ _ _ _ _ _ _ _ Hall).
  rewrite keep_best_dominated by done.
  reflexivity.
Qed.

Lemma train_model_all_zero_returns_None_witness :
  train_model_on Demo.labels
    [Demo.mlp_always [0; 0; 0; 0]; Demo.svc_always 0; Demo.mlp_always [1; 1; 0; 0]]
    [[0%Q]; [1%Q]] [0; 2] [[2%Q]; [3%Q]] [1; 1] =
    Ok {| printed_best_accuracy := 0%Q; returned_clf := None |}.
Proof.
  apply (train_model_all_zero_returns_None Demo.labels
           [Demo.mlp_always [0; 0; 0; 0]; Demo.svc_always 0; Demo.mlp_always [1; 1; 0; 0]]
           [[0%Q]; [1%Q]] [0; 2] [[2%Q]; [3%Q]] [1; 1]).
  intros clf Hclf.
  repeat (apply elem_of_cons in Hclf as [->|Hclf]); [| | |by apply elem_of_nil in Hclf];
    eexists _, _; (split; [reflexivity|reflexivity]).
Defined.

(** C2, at an input where the code departs from it: the training labels are
    0 and 2, the two validation labels are 1, and none of the five fitted
    candidates ever predicts class 1.  Every candidate is fitted and scored
    without error, with validation accuracy 0, and [train_model] returns no
    model, where the first candidate with the highest accuracy was to be
    returned. *)
Theorem train_model_zero_scores_returns_no_model :
  let t_features := [[0%Q]; [1%Q]] in
  let t_labels := [0; 2] in
  let v_features := [[2%Q]; [3%Q]] in
  let v_labels := [1; 1] in
  Forall (λ clf, ∃ fitted,
            evaluate Demo.labels t_features t_labels v_features v_labels clf
              = Ok (fitted, (0 # 2)%Q))
         [Demo.mlp_always [1; 0; 0; 0]; Demo.mlp_always [0; 0; 1; 0];
          Demo.mlp_always [0; 0; 0; 0]; Demo.mlp_always [1; 0; 1; 0];
          Demo.svc_always 0] ∧
  train_model Demo.labels
    (Demo.fit_rows [1; 0; 0; 0]) (Demo.fit_rows [0; 0; 1; 0])
    (Demo.fit_rows [0; 0; 0; 0]) (Demo.fit_rows [1; 0; 1; 0]) (Demo.fit_index 0)
    t_features t_labels v_features v_labels =
    Ok {| printed_best_accuracy := 0%Q; returned_clf := None |}.
Proof.
  split; [|reflexivity].
  repeat (apply Forall_cons; split; [eexists; reflexivity|]).
  apply Forall_nil_2.
Qed.

(** When some candidate scores above 0 the first candidate with the
    highest accuracy is selected: here two candidates tie at 1/2. *)
Example train_model_first_of_tied :
  train_model_on Demo.labels
    [Demo.mlp_always [0; 0; 0; 0]; Demo.svc_always 1; Demo.mlp_always [0; 0; 1; 0]]
    [[0%Q]] [0] [[2%Q]; [3%Q]] [1; 2] =
    Ok {| printed_best_accuracy := (1 # 2)%Q;
          returned_clf := Some (Demo.constant_svc 1) |}.
Proof. reflexivity. Qed.

(** ** Prediction *)

Section PredictionFacts.

Variable PrettyMIDI : string → outcome MidiFile.
Variable label_list : list string.

Lemma find_index_None {A} `{EqDecision A} (x : A) (l : list A) :
  find_index x l = None ↔ x ∉ l.
Proof.
  induction l as [|y l IH]; simpl.
  - split; [intros _; apply not_elem_of_nil | done].
  - destruct (decide (y = x)) as [->|Hne].
    + split; [done|]. intros Hnot. exfalso. apply Hnot. by left.
    + rewrite not_elem_of_cons. destruct (find_index x l); simpl.
      * split; [done|]. intros [_ Hnot]. by apply IH in Hnot.
      * split; [|done]. intros _. split; [congruence|]. by apply IH.
Qed.

Lemma find_index_Some {A} `{EqDecision A} (x : A) (l : list A) (i : nat) :
  find_index x l = Some i →
  l !! i = Some x ∧ ∀ j, (j < i)%nat → l !! j ≠ Some x.
Proof.
  revert i. induction l as [|y l IH]; intros i; simpl; [done|].
  destruct (decide (y = x)) as [->|Hne].
  - intros [= <-]. split; [done|]. intros j Hj. lia.
  - destruct (find_index x l) as [i'|]; simpl; [|done].
    intros [= <-]. destruct (IH i' eq_refl) as [Hi Hbefore]. split; [done|].
    intros [|j] Hj; simpl; [congruence|]. apply Hbefore. lia.
Qed.

Lemma make_prediction_dense (predict : list sample → result (list (list Z)))
    path (features : sample) v rest :
  get_features PrettyMIDI path = Ok features →
  predict [features] = Ok (v :: rest) →
  make_prediction PrettyMIDI label_list (FittedMLP predict) path =
    match find_index 1 v with
    | None => Raise ValueError
    | Some i => item label_list i
    end.
Proof.
  intros Hfeatures Hpredict. unfold make_prediction.
  rewrite Hfeatures. simpl. rewrite Hpredict. simpl.
  unfold index. destruct (find_index 1 v) as [i|]; simpl; [|done].
  by destruct (item label_list i).
Qed.

Lemma make_prediction_None clf path :
  get_features PrettyMIDI path = Ok None →
  make_prediction PrettyMIDI label_list clf path =
    (predictions ← predict clf [None];
     first ← first_as_list predictions;
     prediction_ind ← index first 1;
     item label_list prediction_ind).
Proof.
  intros Hfeatures. unfold make_prediction. rewrite Hfeatures. simpl.
  destruct (predict clf [None]) as [predictions|e]; simpl; [|done].
  destruct (first_as_list predictions) as [first|e]; simpl; [|done].
  destruct (index first 1) as [i|e]; simpl; [|done].
  by destruct (item label_list i).
Qed.

End PredictionFacts.

(** C3, as the code has it: for an [MLPClassifier] whose output for the
    file is the vector [v], [make_prediction] raises [ValueError] when no
    entry of [v] is 1, and otherwise looks up, in [label_list], the position
    of the first entry equal to 1; further entries equal to 1 are not
    looked at and do not make it fail. *)
Theorem make_prediction_first_one (PrettyMIDI : string → outcome MidiFile)
    (label_list : list string)
    (predict : list sample → result (list (list Z)))
    (path : string) (features : sample) (v : list Z) (rest : list (list Z)) :
  get_features PrettyMIDI path = Ok features →
  predict [features] = Ok (v :: rest) →
  (1 ∉ v →
   make_prediction PrettyMIDI label_list (FittedMLP predict) path = Raise ValueError) ∧
  (∀ i, v !! i = Some 1 → (∀ j, (j < i)%nat → v !! j ≠ Some 1) →
   make_prediction PrettyMIDI label_list (FittedMLP predict) path = item label_list i).
Proof.
  intros Hfeatures Hpredict.
  rewrite (make_prediction_dense _ _ _ _ _ _ _ Hfeatures Hpredict). split.
  - intros Hnone. by rewrite (proj2 (find_index_None 1 v) Hnone).
  - intros i Hi Hfirst. destruct (find_index 1 v) as [i'|] eqn:Hfind.
    + destruct (find_index_Some _ _ _ Hfind) as [Hi' Hfirst'].
      destruct (Nat.lt_trichotomy i i') as [Hlt|[->|Hgt]]; [|done|].
      * by destruct (Hfirst' i Hlt).
      * by destruct (Hfirst i' Hgt).
    + apply find_index_None in Hfind. destruct Hfind.
      by apply list_elem_of_lookup_2 in Hi.
Qed.

Lemma make_prediction_first_one_witness :
  (1 ∉ [0; 0; 1; 0] →
   make_prediction Demo.codec Demo.labels (Demo.stub [0; 0; 1; 0]) "plain.mid"
     = Raise ValueError) ∧
  (∀ i, [0; 0; 1; 0] !! i = Some 1 →
        (∀ j, (j < i)%nat → [0; 0; 1; 0] !! j ≠ Some 1) →
   make_prediction Demo.codec Demo.labels (Demo.stub [0; 0; 1; 0]) "plain.mid"
     = item Demo.labels i).
Proof.
  apply (make_prediction_first_one Demo.codec Demo.labels (λ _, Ok [[0; 0; 1; 0]])
           "plain.mid"
           (Some [((120 - 150) / 300)%Q; ((inject_Z 120 - 260) / 400)%Q;
                  ((inject_Z 4 - 3) / 8)%Q; ((inject_Z 4 - 3) / 8)%Q])
           [0; 0; 1; 0] []);
    reflexivity.
Defined.

(** The scenario of the specification: output [0,0,1,0] over [A,B,C,D]. *)
Example make_prediction_stub :
  make_prediction Demo.codec Demo.labels (Demo.stub [0; 0; 1; 0]) "plain.mid" = Ok "C".
Proof. reflexivity. Qed.

Example make_prediction_no_one :
  make_prediction Demo.codec Demo.labels (Demo.stub [0; 0; 0; 0]) "plain.mid"
    = Raise ValueError.
Proof. reflexivity. Qed.

(** An output with two entries equal to 1 is decoded, by its first such
    entry, instead of being rejected: C3 does not hold as stated. *)
Lemma make_prediction_two_ones_decoded :
  length (filter (λ x, x = 1) [0; 1; 1; 0]) = 2%nat ∧
  make_prediction Demo.codec Demo.labels (Demo.stub [0; 1; 1; 0]) "plain.mid" = Ok "B" ∧
  ¬ raises (make_prediction Demo.codec Demo.labels (Demo.stub [0; 1; 1; 0]) "plain.mid").
Proof. split; [reflexivity|]. split; [reflexivity|]. by intros []. Qed.

(** A model that validates its input rejects the row [None] with an
    error of its own. *)
Example make_prediction_rejected_by_model :
  make_prediction Demo.codec Demo.labels (Demo.checking [0; 0; 1; 0]) "corrupt.mid"
    = Raise (LibraryError "bad input").
Proof. reflexivity. Qed.

(** C8, at an input where the code departs from it: the decoder rejects
    the file, [get_features] turns that into [None], and [make_prediction],
    which has no test of [None], hands the row to the model.  With a model
    that does not look at its input a genre is returned; with a model that
    validates its input the failure is the model's, not a decode failure.
    [extract_midi_features] does test for [None] and drops the same file. *)
Theorem make_prediction_undecodable_file_yields_genre :
  Demo.codec "corrupt.mid" = Fails (LibraryError "bad header") ∧
  get_features Demo.codec "corrupt.mid" = Ok None ∧
  make_prediction Demo.codec Demo.labels (Demo.stub [0; 0; 1; 0]) "corrupt.mid" = Ok "C" ∧
  make_prediction Demo.codec Demo.labels (Demo.checking [0; 0; 1; 0]) "corrupt.mid" =
    Raise (LibraryError "bad input") ∧
  extract_midi_features Demo.codec Demo.labels
    [ {| Path := "corrupt.mid"; Genre := "A" |} ] = Ok [].
Proof. repeat split. Qed.

(** ** binary64: [int(num * 0.6)] and [int(num * 0.8)] *)

Lemma iter_pos_nat {A} (f : A → A) (p : positive) (x : A) :
  SpecFloat.iter_pos f p x = Nat.iter (Pos.to_nat p) f x.
Proof.
  revert x. induction p as [p IH|p IH|]; intros x; cbn [SpecFloat.iter_pos].
  - rewrite !IH, Pos2Nat.inj_xI, <- Nat.iter_add.
    replace (S (2 * Pos.to_nat p)) with (S (Pos.to_nat p + Pos.to_nat p)) by lia.
    by rewrite Nat.iter_succ_r.
  - rewrite !IH, Pos2Nat.inj_xO, <- Nat.iter_add. f_equal. lia.
  - done.
Qed.

Lemma digits2_pos_bounds (p : positive) :
  2 ^ (Z.pos (digits2_pos p) - 1) ≤ Z.pos p < 2 ^ Z.pos (digits2_pos p).
Proof.
  induction p as [p IH|p IH|]; simpl digits2_pos.
  - rewrite Pos2Z.inj_succ, (Pos2Z.inj_xI p).
    replace (Z.succ (Z.pos (digits2_pos p)) - 1) with (Z.succ (Z.pos (digits2_pos p) - 1)) by lia.
    rewrite !Z.pow_succ_r by lia. revert IH.
    generalize (2 ^ (Z.pos (digits2_pos p) - 1)), (2 ^ Z.pos (digits2_pos p)). lia.
  - rewrite Pos2Z.inj_succ, (Pos2Z.inj_xO p).
    replace (Z.succ (Z.pos (digits2_pos p)) - 1) with (Z.succ (Z.pos (digits2_pos p) - 1)) by lia.
    rewrite !Z.pow_succ_r by lia. revert IH.
    generalize (2 ^ (Z.pos (digits2_pos p) - 1)), (2 ^ Z.pos (digits2_pos p)). lia.
  - simpl. lia.
Qed.

Lemma Zdigits2_unique (m d : Z) :
  2 ^ (d - 1) ≤ m < 2 ^ d → 0 < d → Zdigits2 m = d.
Proof.
  intros [Hlo Hhi] Hd.
  assert (0 < m) as Hm by (pose proof (Z.pow_pos_nonneg 2 (d - 1)); lia).
  destruct m as [|p|p]; [lia| |lia]. simpl.
  pose proof (digits2_pos_bounds p) as [Hlo' Hhi'].
  set (d' := Z.pos (digits2_pos p)) in *.
  destruct (Z.lt_trichotomy d' d) as [Hlt|[->|Hgt]]; [|done|].
  - assert (2 ^ d' ≤ 2 ^ (d - 1)) by (apply Z.pow_le_mono_r; lia). lia.
  - assert (2 ^ d ≤ 2 ^ (d' - 1)) by (apply Z.pow_le_mono_r; lia). lia.
Qed.

Lemma shr_1_nonneg (m : Z) (r s : bool) :
  0 ≤ m →
  shr_1 {| shr_m := m; shr_r := r; shr_s := s |} =
    {| shr_m := m / 2; shr_r := Z.odd m; shr_s := r || s |}.
Proof.
  intros Hm. destruct m as [|[p|p|]|p]; try lia; simpl shr_1; f_equal.
  - rewrite (Pos2Z.inj_xI p). apply (Z.div_unique _ _ _ 1); lia.
  - rewrite (Pos2Z.inj_xO p). apply (Z.div_unique _ _ _ 0); lia.
Qed.

Lemma shr_iter (m : Z) (n : nat) :
  0 ≤ m →
  Nat.iter (S n) shr_1 {| shr_m := m; shr_r := false; shr_s := false |} =
    {| shr_m := m / 2 ^ Z.of_nat (S n);
       shr_r := Z.odd (m / 2 ^ Z.of_nat n);
       shr_s := negb (m mod 2 ^ Z.of_nat n =? 0) |}.
Proof.
  intros Hm. induction n as [|n IH].
  - unfold Nat.iter. cbn [nat_rect]. rewrite shr_1_nonneg by done.
    change (2 ^ Z.of_nat 0) with 1. change (2 ^ Z.of_nat 1) with 2.
    by rewrite Z.div_1_r, Z.mod_1_r.
  - rewrite Nat.iter_succ, IH.
    assert (0 < 2 ^ Z.of_nat n) as Hpow by (apply Z.pow_pos_nonneg; lia).
    rewrite shr_1_nonneg by (apply Z.div_pos; [done | apply Z.pow_pos_nonneg; lia]).
    f_equal.
    + rewrite Z.div_div by lia. f_equal.
      rewrite (Nat2Z.inj_succ (S n)), Z.pow_succ_r by lia. lia.
    + rewrite (Nat2Z.inj_succ n), Z.pow_succ_r by lia.
      rewrite (Z.mul_comm 2), Z.rem_mul_r by lia.
      rewrite (Zmod_odd (m / 2 ^ Z.of_nat n)).
      pose proof (Z.mod_pos_bound m (2 ^ Z.of_nat n) Hpow) as Hv.
      destruct (Z.odd (m / 2 ^ Z.of_nat n)); simpl.
      * symmetry. apply negb_true_iff, Z.eqb_neq. lia.
      * f_equal. f_equal. lia.
Qed.

(** Rounding the mantissa [m] to the nearest multiple of [2 ^ n]. *)
Lemma round_shr (m : Z) (p : positive) :
  0 ≤ m →
  let rec := SpecFloat.iter_pos shr_1 p {| shr_m := m; shr_r := false; shr_s := false |} in
  let q' := round_nearest_even (shr_m rec) (loc_of_shr_record rec) in
  let q := m / 2 ^ Z.pos p in
  q ≤ q' ≤ q + 1 ∧
  (2 * (m mod 2 ^ Z.pos p) < 2 ^ Z.pos p → q' = q) ∧
  (2 ^ Z.pos p < 2 * (m mod 2 ^ Z.pos p) → q' = q + 1).
Proof.
  intros Hm. rewrite iter_pos_nat.
  destruct (Pos2Nat.is_succ p) as [n Hn]. rewrite Hn.
  assert (Z.pos p = Z.succ (Z.of_nat n)) as -> by lia.
  rewrite shr_iter by done. rewrite <- Nat2Z.inj_succ. 
  cbn [shr_m shr_r shr_s loc_of_shr_record].
  assert (0 < 2 ^ Z.of_nat n) as Hpow by (apply Z.pow_pos_nonneg; lia).
  assert (m mod 2 ^ Z.of_nat (S n) =
          m mod 2 ^ Z.of_nat n + 2 ^ Z.of_nat n * ((m / 2 ^ Z.of_nat n) mod 2)) as Hrem.
  { rewrite (Nat2Z.inj_succ n), Z.pow_succ_r by lia.
    rewrite (Z.mul_comm 2), Z.rem_mul_r by lia. done. }
  rewrite (Zmod_odd (m / 2 ^ Z.of_nat n)) in Hrem.
  assert (2 ^ Z.of_nat (S n) = 2 * 2 ^ Z.of_nat n) as Hpow2.
  { rewrite (Nat2Z.inj_succ n), Z.pow_succ_r by lia. done. }
  pose proof (Z.mod_pos_bound m (2 ^ Z.of_nat n) Hpow) as Hv.
  rewrite Hrem, Hpow2. clear Hrem Hpow2.
  generalize dependent (m mod 2 ^ Z.of_nat n). intros v Hv.
  generalize dependent (2 ^ Z.of_nat n). intros h Hh Hv.
  generalize (m / (2 * h)). intros q.
  destruct (Z.odd (m / h)); destruct (negb (v =? 0)) eqn:Hs; cbn [round_nearest_even].
  - lia.
  - apply negb_false_iff, Z.eqb_eq in Hs. destruct (Z.even q); lia.
  - lia.
  - lia.
Qed.

Lemma fexp_normal (x : Z) : -1021 ≤ x → fexp 53 1024 x = x - 53.
Proof. intros Hx. unfold fexp, emin. lia. Qed.

Lemma shr_fexp_exact (q e : Z) :
  2 ^ 52 ≤ q < 2 ^ 53 → -1074 ≤ e →
  shr_fexp 53 1024 q e loc_Exact =
    ({| shr_m := q; shr_r := false; shr_s := false |}, e).
Proof.
  intros Hq He. unfold shr_fexp.
  rewrite (Zdigits2_unique q 53) by (done || lia).
  rewrite fexp_normal by lia.
  replace (53 + e - 53 - e) with 0 by lia. reflexivity.
Qed.

Lemma shr_fexp_carry (e : Z) :
  -1074 ≤ e →
  shr_fexp 53 1024 (2 ^ 53) e loc_Exact =
    ({| shr_m := 2 ^ 52; shr_r := false; shr_s := false |}, e + 1).
Proof.
  intros He. unfold shr_fexp.
  rewrite (Zdigits2_unique (2 ^ 53) 54) by (done || lia).
  rewrite fexp_normal by lia.
  replace (54 + e - 53 - e) with 1 by lia. reflexivity.
Qed.

Lemma binary_round_aux_wide (m e n : Z) :
  0 < n → 2 ^ (52 + n) ≤ m < 2 ^ (53 + n) → -1074 ≤ e + n → e + n < 971 →
  ∃ q', (m / 2 ^ n ≤ q' ≤ m / 2 ^ n + 1) ∧
        (2 * (m mod 2 ^ n) < 2 ^ n → q' = m / 2 ^ n) ∧
        (2 ^ n < 2 * (m mod 2 ^ n) → q' = m / 2 ^ n + 1) ∧
        2 ^ 52 ≤ q' ≤ 2 ^ 53 ∧
        binary_round_aux 53 1024 false m e loc_Exact = rounded q' (e + n).
Proof.
  intros Hn Hm He1 He2.
  assert (0 < 2 ^ n) as Hpow by (apply Z.pow_pos_nonneg; lia).
  assert (0 ≤ m) as Hm0.
  { pose proof (Z.pow_pos_nonneg 2 (52 + n)). lia. }
  assert (2 ^ 52 ≤ m / 2 ^ n < 2 ^ 53) as Hq.
  { rewrite !(Z.add_comm _ n), !Z.pow_add_r in Hm by lia.
    split; [apply Z.div_le_lower_bound | apply Z.div_lt_upper_bound]; lia. }
  destruct n as [|p|p]; [lia| |lia].
  destruct (round_shr m p Hm0) as (Hbr & Hlow & Hhigh).
  set (q' := round_nearest_even _ _) in *.
  exists q'. split; [done|]. split; [done|]. split; [done|]. split; [lia|].
  unfold binary_round_aux.
  assert (shr_fexp 53 1024 m e loc_Exact =
          (SpecFloat.iter_pos shr_1 p {| shr_m := m; shr_r := false; shr_s := false |},
           e + Z.pos p)) as ->.
  { unfold shr_fexp. rewrite (Zdigits2_unique m (53 + Z.pos p)).
    - rewrite fexp_normal by lia.
      replace (53 + Z.pos p + e - 53 - e) with (Z.pos p) by lia. reflexivity.
    - replace (53 + Z.pos p - 1) with (52 + Z.pos p) by lia. done.
    - lia. }
  fold q'. unfold rounded.
  destruct (Z.ltb_spec q' (2 ^ 53)) as [Hlt|Hge].
  - rewrite shr_fexp_exact by lia. cbn [shr_m].
    destruct q' as [|q1|q1] eqn:Hq'; [lia| |lia].
    rewrite (proj2 (Z.leb_le _ _)) by lia. reflexivity.
  - assert (q' = 2 ^ 53) as -> by lia.
    rewrite shr_fexp_carry by lia. cbn [shr_m].
    change (2 ^ 52) with (Z.pos (Z.to_pos (2 ^ 52))).
    cbv iota beta. rewrite (proj2 (Z.leb_le _ _)) by lia. reflexivity.
Qed.


Lemma binary_round_aux_exact (q e : Z) :
  2 ^ 52 ≤ q < 2 ^ 53 → -1074 ≤ e ≤ 971 →
  binary_round_aux 53 1024 false q e loc_Exact = S754_finite false (Z.to_pos q) e.
Proof.
  intros Hq He. unfold binary_round_aux.
  rewrite shr_fexp_exact by lia. cbn [shr_m loc_of_shr_record round_nearest_even].
  rewrite shr_fexp_exact by lia. cbn [shr_m].
  destruct q as [|q1|q1]; [lia| |lia].
  rewrite (proj2 (Z.leb_le _ _)) by lia. reflexivity.
Qed.

Lemma shift_pos_pow (p k : positive) :
  Z.pos (Pos.iter xO p k) = Z.pos p * 2 ^ Z.pos k.
Proof.
  change (Pos.iter xO p k) with (shift_pos k p).
  rewrite shift_pos_correct, Z.pow_pos_fold. lia.
Qed.

(** [float(N)] is exact for an integer of at most 53 bits. *)
Lemma of_int_exact (N d : Z) :
  0 < d ≤ 53 → 2 ^ (d - 1) ≤ N < 2 ^ d →
  Float64.of_int N = S754_finite false (Z.to_pos (N * 2 ^ (53 - d))) (d - 53).
Proof.
  intros Hd HN.
  assert (0 < N) as HN0 by (pose proof (Z.pow_pos_nonneg 2 (d - 1)); lia).
  pose proof (Zdigits2_unique N d HN ltac:(lia)) as Hdig.
  destruct N as [|p|p]; [lia| |lia]. simpl in Hdig.
  unfold Float64.of_int, binary_normalize, binary_round, Float64.prec, Float64.emax.
  rewrite Hdig, fexp_normal by lia.
  assert (2 ^ 52 ≤ Z.pos p * 2 ^ (53 - d) < 2 ^ 53) as Hrange.
  { destruct HN as [Hlo Hhi].
    assert (2 ^ 52 = 2 ^ (d - 1) * 2 ^ (53 - d)) as ->
      by (rewrite <- Z.pow_add_r by lia; f_equal; lia).
    assert (2 ^ 53 = 2 ^ d * 2 ^ (53 - d)) as ->
      by (rewrite <- Z.pow_add_r by lia; f_equal; lia).
    assert (0 < 2 ^ (53 - d)) by (apply Z.pow_pos_nonneg; lia).
    split; [apply Z.mul_le_mono_nonneg_r | apply Z.mul_lt_mono_pos_r]; lia. }
  unfold shl_align.
  destruct (d + 0 - 53 - 0) as [|k|k] eqn:Hk.
  - assert (d = 53) as -> by lia. change (2 ^ (53 - 53)) with 1 in *.
    rewrite Z.mul_1_r in *. rewrite binary_round_aux_exact by lia. reflexivity.
  - lia.
  - assert (53 - d = Z.pos k) as Hs by lia. rewrite Hs in *.
    rewrite shift_pos_pow. rewrite binary_round_aux_exact by lia.
    f_equal. lia.
Qed.

Lemma to_int_rounded (q' f : Z) :
  2 ^ 52 ≤ q' ≤ 2 ^ 53 → 0 < f →
  Float64.to_int (rounded q' (- f)) = Ok (q' / 2 ^ f).
Proof.
  intros Hq Hf. unfold rounded.
  destruct (Z.ltb_spec q' (2 ^ 53)) as [Hlt|Hge]; unfold Float64.to_int, cond_Zopp.
  - rewrite (proj2 (Z.leb_gt _ _)) by lia.
    rewrite Z2Pos.id, Z.opp_involutive by lia. done.
  - assert (q' = 2 ^ 53) as -> by lia.
    rewrite Z2Pos.id by lia.
    assert (2 ^ f = 2 * 2 ^ (f - 1)) as ->
      by (rewrite <- Z.pow_succ_r by lia; f_equal; lia).
    change (2 ^ 53) with (2 * 2 ^ 52).
    assert (0 < 2 ^ (f - 1)) by (apply Z.pow_pos_nonneg; lia).
    rewrite Z.div_mul_cancel_l by lia.
    destruct (Z.leb_spec 0 (- f + 1)) as [Hf1|Hf1].
    + assert (f = 1) as -> by lia. reflexivity.
    + f_equal. f_equal. f_equal. lia.
Qed.

Lemma floor_bracket (T q rem lo hi : Z) :
  0 < T → 0 ≤ rem < T → T * lo ≤ T * q + rem < T * hi → lo ≤ q < hi.
Proof. intros HT Hrem [Hlo Hhi]. split; nia. Qed.

(** The arithmetic behind [int(num * 0.6)]: [M] is the mantissa of the
    double nearest to 3/5, [A] the normalised mantissa of [num], [T] the
    weight of the bits rounded away and [F] the weight of the unit. *)
Lemma scaled_floor_0_6 (N A T F q' : Z) :
  let M := 5404319552844595 in
  let P := A * M in
  0 < N → 2 ^ 52 ≤ A < 2 ^ 53 → 0 < T → 8 ≤ F →
  N * (F * T) = A * 2 ^ 53 → A < F * T →
  T * 2 ^ 52 ≤ P < T * 2 ^ 53 →
  P / T ≤ q' ≤ P / T + 1 →
  (2 * (P mod T) < T → q' = P / T) →
  (T < 2 * (P mod T) → q' = P / T + 1) →
  q' / F = 3 * N / 5.
Proof.
  intros M P HN HA HT HF HX HAX HP Hq' Hlow Hhigh.
  pose proof (Z.div_mod (3 * N) 5 ltac:(lia)) as H3N.
  pose proof (Z.mod_pos_bound (3 * N) 5 ltac:(lia)) as Hr.
  set (k := 3 * N / 5) in *. set (r := (3 * N) mod 5) in *.
  pose proof (Z.div_mod P T ltac:(lia)) as HPT.
  pose proof (Z.mod_pos_bound P T HT) as Hrem.
  set (q := P / T) in *. set (rem := P mod T) in *.
  set (X := F * T) in *.
  assert (8 * T ≤ X) as HX8 by (unfold X; nia).
  assert (5 * P = 5 * (T * (k * F)) + r * X - A) as H5P.
  { unfold P, M. replace (T * (k * F)) with (k * X) by (unfold X; ring).
    assert (3 * (N * X) = (5 * k + r) * X) as H by (rewrite <- H3N; ring).
    rewrite HX in H. change (2 ^ 53) with 9007199254740992 in H. lia. }
  assert (P = A * 5404319552844595) as HPA by reflexivity.
  change (2 ^ 52) with 4503599627370496 in *.
  change (2 ^ 53) with 9007199254740992 in *.
  symmetry. apply (Z.div_unique _ _ _ (q' - k * F)); [|lia].
  left.
  assert (r = 0 ∨ 1 ≤ r) as [Hr0|Hr1] by lia.
  - rewrite Hr0 in H5P.
    assert (k * F - 1 ≤ q < k * F) as Hq.
    { apply (floor_bracket T q rem); [done|done|].
      rewrite <- HPT. replace (T * (k * F - 1)) with (T * (k * F) - T) by ring. lia. }
    assert (q = k * F - 1) as Hqeq by lia.
    assert (q' = q + 1) as ->.
    { apply Hhigh. rewrite Hqeq in HPT.
      replace (T * (k * F - 1)) with (T * (k * F) - T) in HPT by ring. lia. }
    lia.
  - assert (r * X ≤ 4 * X ∧ X ≤ r * X) as [HrX1 HrX2] by nia.
    assert (k * F ≤ q < k * F + F - 1) as Hq.
    { apply (floor_bracket T q rem); [done|done|].
      rewrite <- HPT.
      replace (T * (k * F + F - 1)) with (T * (k * F) + X - T) by (unfold X; ring).
      lia. }
    lia.
Qed.

Lemma scaled_floor_0_8 (N A T F q' : Z) :
  let M := 7205759403792794 in
  let P := A * M in
  0 < N → 2 ^ 52 ≤ A < 2 ^ 53 → 0 < T → 8 ≤ F →
  N * (F * T) = A * 2 ^ 53 → A < F * T →
  T * 2 ^ 52 ≤ P < T * 2 ^ 53 →
  P / T ≤ q' ≤ P / T + 1 →
  (2 * (P mod T) < T → q' = P / T) →
  (T < 2 * (P mod T) → q' = P / T + 1) →
  q' / F = 4 * N / 5.
Proof.
  intros M P HN HA HT HF HX HAX HP Hq' Hlow Hhigh.
  pose proof (Z.div_mod (4 * N) 5 ltac:(lia)) as H4N.
  pose proof (Z.mod_pos_bound (4 * N) 5 ltac:(lia)) as Hr.
  set (k := 4 * N / 5) in *. set (r := (4 * N) mod 5) in *.
  pose proof (Z.div_mod P T ltac:(lia)) as HPT.
  pose proof (Z.mod_pos_bound P T HT) as Hrem.
  set (q := P / T) in *. set (rem := P mod T) in *.
  set (X := F * T) in *.
  assert (8 * T ≤ X) as HX8 by (unfold X; nia).
  assert (5 * P = 5 * (T * (k * F)) + r * X + 2 * A) as H5P.
  { unfold P, M. replace (T * (k * F)) with (k * X) by (unfold X; ring).
    assert (4 * (N * X) = (5 * k + r) * X) as H by (rewrite <- H4N; ring).
    rewrite HX in H. change (2 ^ 53) with 9007199254740992 in H. lia. }
  assert (P = A * 7205759403792794) as HPA by reflexivity.
  change (2 ^ 52) with 4503599627370496 in *.
  change (2 ^ 53) with 9007199254740992 in *.
  symmetry. apply (Z.div_unique _ _ _ (q' - k * F)); [|lia].
  left.
  assert (r = 0 ∨ 1 ≤ r) as [Hr0|Hr1] by lia.
  - rewrite Hr0 in H5P.
    assert (k * F ≤ q < k * F + 1) as Hq.
    { apply (floor_bracket T q rem); [done|done|].
      rewrite <- HPT. replace (T * (k * F + 1)) with (T * (k * F) + T) by ring. lia. }
    assert (q = k * F) as Hqeq by lia.
    assert (q' = q) as ->.
    { apply Hlow. rewrite Hqeq in HPT. lia. }
    lia.
  - assert (r * X ≤ 4 * X ∧ X ≤ r * X) as [HrX1 HrX2] by nia.
    assert (k * F ≤ q < k * F + F - 1) as Hq.
    { apply (floor_bracket T q rem); [done|done|].
      rewrite <- HPT.
      replace (T * (k * F + F - 1)) with (T * (k * F) + X - T) by (unfold X; ring).
      lia. }
    lia.
Qed.

Lemma lit_0_6_value : Float64.lit_0_6 = S754_finite false 5404319552844595 (-53).
Proof. vm_compute. reflexivity. Qed.

Lemma lit_0_8_value : Float64.lit_0_8 = S754_finite false 7205759403792794 (-53).
Proof. vm_compute. reflexivity. Qed.

(** [int(N * c)] for a positive integer below [2 ^ 50] and a double [c] of
    mantissa [M] and exponent [-53], that is [1/2 ≤ c < 1]: the product of
    the mantissas is rounded to 53 bits and truncated to an integer. *)
Lemma int_mul_rounds (N M : Z) :
  0 < N < 2 ^ 50 → 2 ^ 52 ≤ M < 2 ^ 53 →
  ∃ A T F q',
    2 ^ 52 ≤ A < 2 ^ 53 ∧ 0 < T ∧ 8 ≤ F ∧
    N * (F * T) = A * 2 ^ 53 ∧ A < F * T ∧
    T * 2 ^ 52 ≤ A * M < T * 2 ^ 53 ∧
    (A * M / T ≤ q' ≤ A * M / T + 1) ∧
    (2 * ((A * M) mod T) < T → q' = A * M / T) ∧
    (T < 2 * ((A * M) mod T) → q' = A * M / T + 1) ∧
    Float64.int_mul N (S754_finite false (Z.to_pos M) (-53)) = Ok (q' / F).
Proof.
  intros [HN0 HN] HM.
  pose proof (Z.log2_spec N HN0) as Hlog.
  pose proof (Z.log2_nonneg N) as Hlog0.
  assert (Z.log2 N < 50) as Hlog50 by (by apply Z.log2_lt_pow2).
  set (d := Z.succ (Z.log2 N)) in *.
  assert (2 ^ (d - 1) ≤ N < 2 ^ d) as Hd.
  { replace (d - 1) with (Z.log2 N) by lia. done. }
  set (S := 2 ^ (53 - d)).
  assert (0 < S) as HS by (apply Z.pow_pos_nonneg; lia).
  assert (2 ^ 52 = 2 ^ (d - 1) * S) as H52
    by (unfold S; rewrite <- Z.pow_add_r by lia; f_equal; lia).
  assert (2 ^ 53 = 2 ^ d * S) as H53
    by (unfold S; rewrite <- Z.pow_add_r by lia; f_equal; lia).
  assert (2 ^ 52 ≤ N * S < 2 ^ 53) as HA.
  { rewrite H52, H53.
    split; [apply Z.mul_le_mono_nonneg_r | apply Z.mul_lt_mono_pos_r]; lia. }
  unfold Float64.int_mul. rewrite (of_int_exact N d) by lia. fold S.
  set (A := N * S) in *.
  assert (Float64.mul (S754_finite false (Z.to_pos A) (d - 53))
              (S754_finite false (Z.to_pos M) (-53)) =
          binary_round_aux 53 1024 false (A * M) (d - 106) loc_Exact) as ->.
  { unfold Float64.mul, SFmul, Float64.prec, Float64.emax. cbn [xorb].
    rewrite Pos2Z.inj_mul, !Z2Pos.id by lia. f_equal. lia. }
  assert (2 ^ 104 ≤ A * M < 2 ^ 106) as HP.
  { change (2 ^ 104) with (2 ^ 52 * 2 ^ 52). change (2 ^ 106) with (2 ^ 53 * 2 ^ 53).
    split; [apply Z.mul_le_mono_nonneg | apply Z.mul_lt_mono_nonneg]; lia. }
  assert (∃ n, 52 ≤ n ≤ 53 ∧ 2 ^ (52 + n) ≤ A * M < 2 ^ (53 + n)) as (n & Hn & HPn).
  { destruct (Z.lt_ge_cases (A * M) (2 ^ 105)).
    - exists 52. split; [lia|]. change (52 + 52) with 104. change (53 + 52) with 105. lia.
    - exists 53. split; [lia|]. change (52 + 53) with 105. change (53 + 53) with 106. lia. }
  destruct (binary_round_aux_wide (A * M) (d - 106) n) as (q' & Hbr & Hlow & Hhigh & Hq' & ->);
    [lia|done|lia|lia|].
  set (f := 106 - d - n).
  replace (d - 106 + n) with (- f) by (unfold f; lia).
  rewrite to_int_rounded by (done || unfold f; lia).
  assert (0 < 2 ^ n) as HT by (apply Z.pow_pos_nonneg; lia).
  assert (2 ^ f * 2 ^ n = S * 2 ^ 53) as HFT.
  { unfold S, f. rewrite <- !Z.pow_add_r by lia. f_equal. lia. }
  assert (8 ≤ 2 ^ f) as HF.
  { change 8 with (2 ^ 3). apply Z.pow_le_mono_r; unfold f; lia. }
  exists A, (2 ^ n), (2 ^ f), q'.
  split; [done|]. split; [done|]. split; [done|].
  split; [rewrite HFT; unfold A; ring|].
  split; [rewrite HFT; nia|].
  split; [rewrite !(Z.mul_comm (2 ^ n)), <- !Z.pow_add_r by lia; done|].
  done.
Qed.

Lemma int_mul_0_6 (N : Z) :
  0 ≤ N < 2 ^ 50 → Float64.int_mul N Float64.lit_0_6 = Ok (3 * N / 5).
Proof.
  intros [HN0 HN]. rewrite lit_0_6_value.
  destruct (Z.eq_dec N 0) as [->|Hne]; [reflexivity|].
  destruct (int_mul_rounds N 5404319552844595) as
    (A & T & F & q' & HA & HT & HF & HX & HAX & HP & Hbr & Hlow & Hhigh & Hint);
    [lia|done|].
  change (Z.to_pos 5404319552844595) with 5404319552844595%positive in Hint.
  rewrite Hint. f_equal. by apply (scaled_floor_0_6 N A T F q'); [lia|..].
Qed.

Lemma int_mul_0_8 (N : Z) :
  0 ≤ N < 2 ^ 50 → Float64.int_mul N Float64.lit_0_8 = Ok (4 * N / 5).
Proof.
  intros [HN0 HN]. rewrite lit_0_8_value.
  destruct (Z.eq_dec N 0) as [->|Hne]; [reflexivity|].
  destruct (int_mul_rounds N 7205759403792794) as
    (A & T & F & q' & HA & HT & HF & HX & HAX & HP & Hbr & Hlow & Hhigh & Hint);
    [lia|done|].
  change (Z.to_pos 7205759403792794) with 7205759403792794%positive in Hint.
  rewrite Hint. f_equal. by apply (scaled_floor_0_8 N A T F q'); [lia|..].
Qed.

(** ** The partition *)

Section PartitionFacts.

Context {A : Type}.

Lemma clip_in_range (len : nat) (i : Z) :
  0 ≤ i ≤ Z.of_nat len → clip len i = Z.to_nat i.
Proof.
  intros Hi. unfold clip. rewrite (proj2 (Z.ltb_ge _ _)) by lia. f_equal. lia.
Qed.

(** Three consecutive slices at offsets [a ≤ b] within the list. *)
Lemma slices_cover (l : list A) (a b : Z) :
  0 ≤ a ≤ b → b ≤ Z.of_nat (length l) →
  slice_to l a ++ slice l a b ++ slice_from l b = l ∧
  length (slice_to l a) = Z.to_nat a ∧
  length (slice l a b) = Z.to_nat (b - a) ∧
  length (slice_from l b) = Z.to_nat (Z.of_nat (length l) - b).
Proof.
  intros Hab Hb. unfold slice_to, slice, slice_from.
  rewrite !clip_in_range by lia.
  set (a' := Z.to_nat a). set (b' := Z.to_nat b).
  assert (a' ≤ b' ≤ length l)%nat as Hab' by (unfold a', b'; lia).
  split; [|split; [|split]].
  - rewrite <- (take_drop a' l) at 4. f_equal.
    rewrite <- (take_drop (b' - a') (drop a' l)) at 2. f_equal.
    rewrite drop_drop. f_equal. lia.
  - rewrite length_take. lia.
  - rewrite length_take, length_drop. lia.
  - rewrite length_drop. lia.
Qed.

End PartitionFacts.

(** C4: for a matrix of [N] rows ([N] below [2 ^ 50], far beyond what fits
    in memory), whatever order the shuffle produces, the partition cell
    returns three consecutive slices of the shuffled matrix whose sizes add
    up to [N], with [floor(0.6 N)] training rows and
    [floor(0.8 N) - floor(0.6 N)] validation rows: the cut points are the
    cumulative offsets [int(N * 0.6)] and [int(N * 0.8)] in binary64
    arithmetic, which equal [floor(3 N / 5)] and [floor(4 N / 5)]. *)
Theorem partition_sizes {A : Type} (permutation : list A → list A)
    (labeled_features : list A) :
  (∀ l, permutation l ≡ₚ l) →
  Z.of_nat (length labeled_features) < 2 ^ 50 →
  ∃ training_data validation_data test_data,
    let N := Z.of_nat (length labeled_features) in
    partition permutation labeled_features =
      Ok (training_data, validation_data, test_data) ∧
    permutation labeled_features = training_data ++ validation_data ++ test_data ∧
    (length training_data + length validation_data + length test_data
       = length labeled_features)%nat ∧
    Z.of_nat (length training_data) = 3 * N / 5 ∧
    Z.of_nat (length validation_data) = 4 * N / 5 - 3 * N / 5.
Proof.
  intros Hperm Hsize.
  pose proof (Permutation_length (Hperm labeled_features)) as Hlen.
  unfold partition. rewrite Hlen.
  set (N := Z.of_nat (length labeled_features)) in *.
  rewrite int_mul_0_6, int_mul_0_8 by lia. simpl.
  assert (0 ≤ 3 * N / 5 ≤ 4 * N / 5) as Hcuts.
  { split; [apply Z.div_pos; lia|]. apply Z.div_le_mono; lia. }
  assert (4 * N / 5 ≤ N) as Hlast.
  { apply Z.div_le_upper_bound; lia. }
  destruct (slices_cover (permutation labeled_features) (3 * N / 5) (4 * N / 5))
    as (Hcover & Htrain & Hvalid & Htest); [done|lia|].
  eexists _, _, _. split; [reflexivity|].
  split; [by rewrite Hcover|].
  rewrite Htrain, Hvalid, Htest, Hlen. fold N. lia.
Qed.

Lemma partition_sizes_witness :
  ∃ training_data validation_data test_data : list nat,
    let N := Z.of_nat (length [10; 11; 12; 13; 14; 15; 16]%nat) in
    partition reverse [10; 11; 12; 13; 14; 15; 16]%nat =
      Ok (training_data, validation_data, test_data) ∧
    reverse [10; 11; 12; 13; 14; 15; 16]%nat =
      training_data ++ validation_data ++ test_data ∧
    (length training_data + length validation_data + length test_data
       = length [10; 11; 12; 13; 14; 15; 16]%nat)%nat ∧
    Z.of_nat (length training_data) = 3 * N / 5 ∧
    Z.of_nat (length validation_data) = 4 * N / 5 - 3 * N / 5.
Proof.
  apply (partition_sizes reverse [10; 11; 12; 13; 14; 15; 16]%nat).
  - intros l. apply reverse_Permutation.
  - simpl. lia.
Defined.

(** Seven rows, shuffled by reversal: 4 training rows, 1 validation row,
    2 test rows. *)
Example partition_seven_rows :
  partition reverse [10; 11; 12; 13; 14; 15; 16]%nat =
    Ok ([16; 15; 14; 13]%nat, [12]%nat, [11; 10]%nat).
Proof. vm_compute. reflexivity. Qed.

(** The bound on the number of rows is not an artefact of the proof: from
    about [2 ^ 51] rows on, the rounding of the product reaches the units. *)
Example int_mul_beyond_bound :
  Float64.int_mul (2 ^ 51 + 3) Float64.lit_0_8 = Ok (4 * (2 ^ 51 + 3) / 5 + 1).
Proof. vm_compute. reflexivity. Qed.

Example int_mul_values :
  Float64.int_mul 5 Float64.lit_0_6 = Ok 3 ∧
  Float64.int_mul 12532 Float64.lit_0_6 = Ok 7519 ∧
  Float64.int_mul 12532 Float64.lit_0_8 = Ok 10025.
Proof. vm_compute. repeat split. Qed.

(** * The genre table, the vocabulary and the stages together *)

(** ** Strings *)

Lemma append_nil_l (b : string) : "" +:+ b = b.
Proof. reflexivity. Qed.

Lemma append_cons (x : ascii) (a b : string) : String x a +:+ b = String x (a +:+ b).
Proof. reflexivity. Qed.

Lemma append_assoc (a b c : string) : (a +:+ b) +:+ c = a +:+ (b +:+ c).
Proof. induction a as [|x a IH]; [done|]. rewrite !append_cons. by rewrite IH. Qed.

Lemma append_nil_r (a : string) : a +:+ "" = a.
Proof. induction a as [|x a IH]; [done|]. rewrite append_cons. by rewrite IH. Qed.

Lemma length_append (a b : string) :
  String.length (a +:+ b) = (String.length a + String.length b)%nat.
Proof. induction a as [|x a IH]; [done|]. rewrite append_cons. simpl. by rewrite IH. Qed.

Lemma chars_append (a b : string) : chars (a +:+ b) = chars a ++ chars b.
Proof. induction a as [|x a IH]; [done|]. rewrite append_cons. simpl. by rewrite IH. Qed.

Lemma readline_length (f line rest : string) :
  Str.readline f = (line, rest) →
  (String.length line + String.length rest ≤ String.length f)%nat.
Proof.
  revert line rest. induction f as [|c f IH]; intros line rest; simpl.
  - by intros [= <- <-].
  - destruct (decide (c = Str.newline)); [intros [= <- <-]; simpl; lia|].
    destruct (decide (c = Str.carriage_return)).
    + destruct f as [|c' f]; [intros [= <- <-]; simpl; lia|].
      destruct (decide (c' = Str.newline)); intros [= <- <-]; simpl; lia.
    + destruct (Str.readline f) as [l r]. intros [= <- <-]. simpl.
      pose proof (IH l r eq_refl). lia.
Qed.

(** A line without carriage return is read whole. *)
Lemma readline_line (l rest : string) :
  Str.newline ∉ chars l → Str.carriage_return ∉ chars l →
  Str.readline (l +:+ String Str.newline rest) = (l +:+ String Str.newline "", rest).
Proof.
  induction l as [|c l IH]; intros Hnl Hcr.
  - reflexivity.
  - simpl in Hnl, Hcr.
    apply not_elem_of_cons in Hnl as [Hc Hl]. apply not_elem_of_cons in Hcr as [Hc' Hl'].
    rewrite !append_cons. simpl. rewrite !decide_False by done. by rewrite (IH Hl Hl').
Qed.

(** In general the line read is a part of it, up to its first carriage
    return. *)
Lemma readline_prefix (l rest : string) :
  Str.newline ∉ chars l →
  ∃ p q r, l = p +:+ q ∧
           Str.readline (l +:+ String Str.newline rest) = (p +:+ String Str.newline "", r).
Proof.
  induction l as [|c l IH]; intros Hnl.
  - by exists "", "", rest.
  - simpl in Hnl. apply not_elem_of_cons in Hnl as [Hc Hl].
    rewrite append_cons. simpl. rewrite decide_False by done.
    destruct (decide (c = Str.carriage_return)).
    + eexists "", (String c l), _. split; reflexivity.
    + destruct (IH Hl) as (p & q & r & -> & ->).
      exists (String c p), q, r. by rewrite !append_cons.
Qed.

(** What remains after the first line of [l], a text without newline
    followed by a newline: the rest of the file, or a shorter text of the
    same kind. *)
Lemma readline_rest (l rest : string) :
  Str.newline ∉ chars l →
  ∃ line r, Str.readline (l +:+ String Str.newline rest) = (line, r) ∧
            line ≠ "" ∧
            (r = rest ∨
             ∃ l', r = l' +:+ String Str.newline rest ∧ (Str.newline ∉ chars l') ∧
                   (String.length l' < String.length l)%nat).
Proof.
  induction l as [|c l IH]; intros Hnl.
  - exists (String Str.newline ""), rest. split; [reflexivity|]. split; [done|by left].
  - simpl in Hnl. apply not_elem_of_cons in Hnl as [Hc Hl].
    rewrite append_cons. simpl. rewrite decide_False by done.
    destruct (decide (c = Str.carriage_return)).
    + destruct l as [|c' l].
      * eexists _, _. split; [reflexivity|]. split; [done|by left].
      * simpl in Hl. apply not_elem_of_cons in Hl as [Hc' Hl].
        rewrite append_cons. rewrite decide_False by done.
        eexists _, _. split; [reflexivity|]. split; [done|]. right.
        exists (String c' l). rewrite append_cons. split; [done|].
        split; [|simpl; lia]. simpl. by apply not_elem_of_cons.
    + destruct (IH Hl) as (line & r & -> & Hline & Hr).
      eexists _, _. split; [reflexivity|]. split; [done|].
      destruct Hr as [->|(l' & -> & Hl' & Hlen)]; [by left|].
      right. exists l'. split; [done|]. split; [done|]. simpl. lia.
Qed.

Lemma readlines_upto_enough (fuel1 fuel2 : nat) (f : string) :
  (String.length f ≤ fuel1)%nat → (String.length f ≤ fuel2)%nat →
  Str.readlines_upto fuel1 f = Str.readlines_upto fuel2 f.
Proof.
  revert fuel2 f. induction fuel1 as [|fuel1 IH]; intros fuel2 f H1 H2.
  - destruct f; [|simpl in H1; lia]. by destruct fuel2.
  - destruct fuel2 as [|fuel2].
    { destruct f; [done|simpl in H2; lia]. }
    simpl. destruct (Str.readline f) as [line rest] eqn:Hline.
    apply readline_length in Hline.
    destruct line as [|c line]; [done|]. f_equal. simpl in Hline. apply IH; lia.
Qed.

(** The loop of [get_genres] reads a first line and goes on with the rest
    of the file, until nothing is read. *)
Lemma readlines_unfold (f : string) :
  Str.readlines f =
    match Str.readline f with
    | (EmptyString, _) => []
    | (line, rest) => line :: Str.readlines rest
    end.
Proof.
  unfold Str.readlines. destruct f as [|c f]; [reflexivity|].
  cbn [String.length Str.readlines_upto].
  destruct (Str.readline (String c f)) as [line rest] eqn:Hline.
  apply readline_length in Hline.
  destruct line as [|c' line]; [done|]. f_equal.
  simpl in Hline. apply readlines_upto_enough; lia.
Qed.

Lemma readlines_cons (l rest : string) :
  Str.newline ∉ chars l → Str.carriage_return ∉ chars l →
  Str.readlines (l +:+ String Str.newline rest) =
    (l +:+ String Str.newline "") :: Str.readlines rest.
Proof.
  intros Hnl Hcr. rewrite readlines_unfold, (readline_line _ _ Hnl Hcr).
  by destruct l.
Qed.

Lemma readlines_empty : Str.readlines "" = [].
Proof. reflexivity. Qed.

Lemma length_lstrip (s : string) : (String.length (Str.lstrip s) ≤ String.length s)%nat.
Proof. induction s as [|c s IH]; simpl; [done|]. destruct (Str.isspace c); simpl; lia. Qed.

Lemma length_rstrip (s : string) : (String.length (Str.rstrip s) ≤ String.length s)%nat.
Proof.
  induction s as [|c s IH]; simpl; [done|].
  destruct (Str.rstrip s); [destruct (Str.isspace c)|]; simpl in *; lia.
Qed.

Lemma chars_lstrip (s : string) (c : ascii) : c ∈ chars (Str.lstrip s) → c ∈ chars s.
Proof.
  induction s as [|x s IH]; simpl; [done|].
  destruct (Str.isspace x); [|done]. intros Hc. right. by apply IH.
Qed.

Lemma chars_rstrip (s : string) (c : ascii) : c ∈ chars (Str.rstrip s) → c ∈ chars s.
Proof.
  induction s as [|x s IH]; simpl; [done|].
  destruct (Str.rstrip s) as [|y r].
  - destruct (Str.isspace x); simpl; [by intros ?%elem_of_nil|].
    intros [->|?%elem_of_nil]%elem_of_cons; [by left|done].
  - simpl. intros [->|Hc]%elem_of_cons; [by left|]. right. by apply IH.
Qed.

Lemma chars_strip (s : string) (c : ascii) : c ∈ chars (Str.strip s) → c ∈ chars s.
Proof. intros Hc. by apply chars_lstrip, chars_rstrip. Qed.

(** A non-empty string that [strip] leaves alone starts with a character
    that is not whitespace, and [rstrip] leaves it alone too. *)
Lemma strip_fixed (s : string) :
  Str.strip s = s → s ≠ "" →
  (∃ c s', s = String c s' ∧ Str.isspace c = false) ∧ Str.rstrip s = s.
Proof.
  intros Hstrip Hne. destruct s as [|c s']; [done|].
  destruct (Str.isspace c) eqn:Hc.
  - exfalso. unfold Str.strip in Hstrip. simpl in Hstrip. rewrite Hc in Hstrip.
    pose proof (length_rstrip (Str.lstrip s')) as H1.
    pose proof (length_lstrip s') as H2.
    rewrite Hstrip in H1. simpl in H1. lia.
  - split; [by eauto|]. unfold Str.strip in Hstrip. simpl in Hstrip.
    by rewrite Hc in Hstrip.
Qed.

Lemma rstrip_snoc_space (s : string) (c : ascii) :
  Str.isspace c = true → Str.rstrip (s +:+ String c "") = Str.rstrip s.
Proof.
  intros Hc. induction s as [|x s IH].
  - simpl. by rewrite Hc.
  - rewrite append_cons. simpl. by rewrite IH.
Qed.

Lemma rstrip_app_keep (a b : string) :
  Str.rstrip b ≠ "" → Str.rstrip (a +:+ b) = a +:+ Str.rstrip b.
Proof.
  intros Hb. induction a as [|x a IH]; [done|].
  rewrite !append_cons. simpl. rewrite IH.
  destruct (a +:+ Str.rstrip b) as [|y r] eqn:Hab; [|done].
  destruct a; [|done]. by rewrite append_nil_l in Hab.
Qed.

Lemma split_no_sep (sep : ascii) (s : string) :
  sep ∉ chars s → Str.split sep s = [s].
Proof.
  induction s as [|c s IH]; intros Hsep; simpl; [done|].
  simpl in Hsep. apply not_elem_of_cons in Hsep as [Hc Hs].
  rewrite decide_False by done. by rewrite (IH Hs).
Qed.

Lemma split_app_sep (sep : ascii) (a b : string) :
  sep ∉ chars a → Str.split sep (a +:+ String sep b) = a :: Str.split sep b.
Proof.
  induction a as [|c a IH]; intros Hsep.
  - rewrite append_nil_l. simpl. by rewrite decide_True.
  - simpl in Hsep. apply not_elem_of_cons in Hsep as [Hc Ha].
    rewrite append_cons. simpl. rewrite decide_False by done. by rewrite (IH Ha).
Qed.

Lemma join_cons (sep f g : string) (l : list string) :
  Str.join sep (f :: g :: l) = f +:+ sep +:+ Str.join sep (g :: l).
Proof. reflexivity. Qed.

Lemma split_join (sep : ascii) (fields : list string) :
  fields ≠ [] → Forall (λ f, sep ∉ chars f) fields →
  Str.split sep (Str.join (String sep "") fields) = fields.
Proof.
  intros Hne Hfields. induction Hfields as [|f fields Hf Hfields IH]; [done|].
  destruct fields as [|g fields].
  - simpl. by apply split_no_sep.
  - rewrite join_cons. rewrite append_cons, append_nil_l.
    rewrite split_app_sep by done. by rewrite IH.
Qed.

Lemma join_rstrip (fields : list string) :
  Forall clean_field fields → fields ≠ [] →
  Str.rstrip (Str.join (String Str.tab "") fields) = Str.join (String Str.tab "") fields ∧
  Str.join (String Str.tab "") fields ≠ "".
Proof.
  induction 1 as [|f l (Hne & _ & _ & Hstrip) Hl IH]; [done|]. intros _.
  destruct (strip_fixed f Hstrip Hne) as [(c & f' & -> & Hc) Hr].
  destruct l as [|g l].
  - by simpl.
  - destruct IH as [IH1 IH2]; [done|].
    rewrite join_cons. rewrite <- append_assoc.
    rewrite rstrip_app_keep by (by rewrite IH1). rewrite IH1. split; [done|].
    by rewrite !append_cons.
Qed.

Lemma join_head (fields : list string) :
  Forall clean_field fields → fields ≠ [] →
  ∃ c x' l s, fields = String c x' :: l ∧
              Str.join (String Str.tab "") fields = String c s ∧
              Str.isspace c = false.
Proof.
  intros [|f l (Hne & _ & _ & Hstrip) Hl] Hnonempty; [done|].
  destruct (strip_fixed f Hstrip Hne) as [(c & f' & -> & Hc) _].
  destruct l as [|g l].
  - by exists c, f', [], f'.
  - rewrite join_cons, append_cons. by eexists c, f', _, _.
Qed.

Lemma join_no_newline (fields : list string) :
  Forall clean_field fields →
  Str.newline ∉ chars (Str.join (String Str.tab "") fields).
Proof.
  induction 1 as [|f l (_ & _ & Hnl & _) Hl IH]; [by apply not_elem_of_nil|].
  destruct l as [|g l]; [done|].
  rewrite join_cons, !chars_append, !not_elem_of_app. split; [done|]. split; [|done].
  simpl. by intros [?|?%elem_of_nil]%elem_of_cons.
Qed.

Lemma strip_table_line (fields : list string) :
  Forall clean_field fields → fields ≠ [] →
  Str.strip (table_line fields) = Str.join (String Str.tab "") fields.
Proof.
  intros Hclean Hne. unfold table_line, Str.strip.
  destruct (join_head fields Hclean Hne) as (c & x' & l & s & _ & Hjoin & Hc).
  assert (Str.lstrip (Str.join (String Str.tab "") fields +:+ String Str.newline "") =
          Str.join (String Str.tab "") fields +:+ String Str.newline "") as ->.
  { rewrite Hjoin, append_cons. simpl. by rewrite Hc. }
  rewrite rstrip_snoc_space by done. by apply join_rstrip.
Qed.

Lemma split_table_line (fields : list string) :
  Forall clean_field fields → fields ≠ [] →
  Str.split Str.tab (Str.strip (table_line fields)) = fields.
Proof.
  intros Hclean Hne. rewrite strip_table_line by done. apply split_join; [done|].
  eapply Forall_impl; [exact Hclean|]. by intros f (_ & Htab & _).
Qed.

(** ** What [get_genres] can raise *)

Lemma readlines_upto_nonempty (fuel : nat) (f : string) :
  Forall (λ line, line ≠ "") (Str.readlines_upto fuel f).
Proof.
  revert f. induction fuel as [|fuel IH]; intros f; simpl; [constructor|].
  destruct (Str.readline f) as [line rest].
  destruct line as [|c line]; [constructor|].
  constructor; [done|apply IH].
Qed.

Lemma get_genres_step_columns (ids genres : list string) (line : string) :
  line ≠ "" → length ids = length genres →
  (∃ ids' genres', get_genres_step (ids, genres) line = Ok (ids', genres') ∧
                   length ids' = length genres') ∨
  get_genres_step (ids, genres) line = Raise ValueError.
Proof.
  intros Hline Hlen. unfold get_genres_step.
  destruct line as [|c line]; [done|].
  destruct (decide (c ≠ "#"%char)); [|left; by eexists _, _].
  destruct (Str.split Str.tab (Str.strip (String c line))) as [|x [|y more]];
    [by right|by right|].
  left. eexists _, _. split; [reflexivity|]. rewrite !length_app. simpl. lia.
Qed.

Lemma get_genres_loop_columns (lines : list string) (ids genres : list string) :
  Forall (λ line, line ≠ "") lines → length ids = length genres →
  (∃ ids' genres', for_each get_genres_step (ids, genres) lines = Ok (ids', genres') ∧
                   length ids' = length genres') ∨
  for_each get_genres_step (ids, genres) lines = Raise ValueError.
Proof.
  intros Hlines. revert ids genres.
  induction Hlines as [|line lines Hline _ IH]; intros ids genres Hlen.
  - left. by eexists _, _.
  - cbn [for_each].
    destruct (get_genres_step_columns ids genres line Hline Hlen)
      as [(ids' & genres' & -> & Hlen')| ->]; [|by right].
    cbn [mbind result_bind]. by apply IH.
Qed.

(** X3: [get_genres] raises nothing but [ValueError] (a data line with fewer
    than two fields), whatever the file holds: the loop never indexes an
    empty line, and the two columns it builds always have the same length,
    so the data frame can be made. *)
Theorem get_genres_raises_only_ValueError (content : string) :
  (∃ rows, get_genres content = Ok rows) ∨ get_genres content = Raise ValueError.
Proof.
  unfold get_genres.
  destruct (get_genres_loop_columns (Str.readlines content) [] []
              (readlines_upto_nonempty _ _) eq_refl)
    as [(ids & genres & -> & Hlen)| ->]; [|by right].
  left. cbn [mbind result_bind]. unfold DataFrame.
  rewrite decide_True by done. by eexists.
Qed.


Lemma item_out_of_range {A} (l : list A) (i : nat) :
  (length l ≤ i)%nat → item l i = Raise IndexError.
Proof. intros H. unfold item. by rewrite lookup_ge_None_2. Qed.

(** ** The genre table *)

Lemma get_genres_step_comment (st : list string * list string) (text : string) :
  get_genres_step st (render_entry (Comment text)) = Ok st.
Proof. by destruct st. Qed.

Lemma get_genres_step_fields (ids genres : list string) (x y : string) (more : list string) :
  well_formed_entry (Fields x y more) →
  get_genres_step (ids, genres) (render_entry (Fields x y more)) =
    Ok (ids ++ [x], genres ++ [y]).
Proof.
  intros [Hclean Hhash]. unfold get_genres_step. cbn [render_entry].
  rewrite (split_table_line _ Hclean) by done.
  destruct (join_head _ Hclean) as (c & x' & l & s & [= -> ->] & Hjoin & Hc); [done|].
  unfold table_line. rewrite Hjoin, append_cons.
  rewrite decide_True; [done|]. intros ->. by destruct (Hhash x').
Qed.

Lemma render_entry_line (e : table_entry) :
  well_formed_entry e →
  ∃ l, render_entry e = l +:+ String Str.newline "" ∧ Str.newline ∉ chars l.
Proof.
  destruct e as [text|x y more]; simpl.
  - intros Hnl. exists (String "#" text). split; [done|].
    simpl. by intros [?|?]%elem_of_cons.
  - intros [Hclean _]. eexists. split; [reflexivity|]. by apply join_no_newline.
Qed.

Lemma get_genres_step_entry (ids genres : list string) (e : table_entry) :
  well_formed_entry e →
  get_genres_step (ids, genres) (render_entry e) =
    Ok (ids ++ (GenreTable.TrackID <$> omap entry_row [e]),
        genres ++ (GenreTable.Genre <$> omap entry_row [e])).
Proof.
  destruct e as [text|x y more]; intros Hwf.
  - rewrite get_genres_step_comment. simpl. by rewrite !app_nil_r.
  - by rewrite get_genres_step_fields.
Qed.

(** The loop of [get_genres] over the lines of a rendered table, followed
    by more content. *)
Lemma get_genres_loop (entries : list table_entry) (rest : string)
    (ids genres : list string) :
  Forall well_formed_entry entries →
  Str.carriage_return ∉ chars (render_table entries) →
  for_each get_genres_step (ids, genres)
           (Str.readlines (render_table entries +:+ rest)) =
    for_each get_genres_step
             (ids ++ (GenreTable.TrackID <$> omap entry_row entries),
              genres ++ (GenreTable.Genre <$> omap entry_row entries))
             (Str.readlines rest).
Proof.
  intros Hwf. revert ids genres.
  induction Hwf as [|e entries He _ IH]; intros ids genres Hcr.
  - simpl. by rewrite !app_nil_r.
  - cbn [render_table foldr] in Hcr |- *. fold (render_table entries) in Hcr |- *.
    destruct (render_entry_line e He) as (l & Hl & Hnl).
    rewrite chars_append, not_elem_of_app in Hcr. destruct Hcr as [Hcr_e Hcr].
    rewrite append_assoc. pose proof (get_genres_step_entry ids genres e He) as Hstep.
    rewrite Hl in Hstep, Hcr_e |- *.
    rewrite chars_append, not_elem_of_app in Hcr_e. destruct Hcr_e as [Hcr_l _].
    rewrite append_assoc, append_cons, append_nil_l, readlines_cons by done.
    cbn [for_each]. rewrite Hstep. cbn [mbind result_bind]. rewrite IH by done.
    f_equal. destruct (entry_row e) eqn:Hrow; simpl; rewrite Hrow; simpl;
      by rewrite <- ?app_assoc.
Qed.

Lemma zip_rows (rows : list GenreTable.row) :
  zip_with (λ id genre, {| GenreTable.TrackID := id; GenreTable.Genre := genre |})
           (GenreTable.TrackID <$> rows) (GenreTable.Genre <$> rows) = rows.
Proof.
  induction rows as [|[id genre] rows IH]; [done|]. cbn [fmap list_fmap zip_with].
  fold (fmap (M:=list) GenreTable.TrackID rows) (fmap (M:=list) GenreTable.Genre rows).
  by rewrite IH.
Qed.

(** X1: [get_genres] reads back a table written one entry per line, with
    no carriage return in it: comment lines (starting with [#]) give no
    row, and a line of tab-separated fields gives the row made of its first
    two fields, further fields being ignored; the rows come in the order of
    the lines. *)
Theorem get_genres_table (entries : list table_entry) :
  Forall well_formed_entry entries →
  Str.carriage_return ∉ chars (render_table entries) →
  get_genres (render_table entries) = Ok (omap entry_row entries).
Proof.
  intros Hwf Hcr. unfold get_genres.
  rewrite <- (append_nil_r (render_table entries)).
  rewrite (get_genres_loop entries "" [] [] Hwf Hcr), readlines_empty.
  cbn [for_each mbind result_bind app]. unfold DataFrame.
  rewrite decide_True by (by rewrite !length_fmap).
  by rewrite zip_rows.
Qed.

Lemma get_genres_table_witness :
  get_genres (render_table Sample.genre_table) = Ok Sample.genre_df.
Proof.
  apply (get_genres_table Sample.genre_table).
  - repeat (constructor;
            [first [ by_computation
                   | split; [|intros s; discriminate];
                     repeat (constructor;
                             [repeat split; first [discriminate | by_computation | reflexivity]|]);
                     constructor ]|]).
    constructor.
  - by_computation.
Defined.

(** A carriage return inside a field cuts the line in two, as text mode
    does: the table of one line is read as two rows. *)
Example get_genres_carriage_return :
  get_genres (table_line ["TRAAAAK128F9318786";
                          "Pop" +:+ String Str.carriage_return "Rock";
                          "Jazz"]) =
    Ok [ {| GenreTable.TrackID := "TRAAAAK128F9318786"; GenreTable.Genre := "Pop" |};
         {| GenreTable.TrackID := "Rock"; GenreTable.Genre := "Jazz" |} ].
Proof. vm_compute. reflexivity. Qed.

Lemma doomed_line_upto (n : nat) (l rest : string) :
  (String.length l < n)%nat → Str.newline ∉ chars l →
  doomed rest → doomed (l +:+ String Str.newline rest).
Proof.
  revert l. induction n as [|n IH]; intros l Hn Hnl Hrest; [lia|].
  intros ids genres Hlen.
  destruct (readline_rest l rest Hnl) as (line & r & Hline & Hne & Hr).
  rewrite readlines_unfold, Hline.
  destruct line as [|c line]; [done|]. cbn [for_each].
  destruct (get_genres_step_columns ids genres (String c line) Hne Hlen)
    as [(ids' & genres' & -> & Hlen')| ->]; [|done].
  cbn [mbind result_bind].
  destruct Hr as [->|(l' & -> & Hl' & Hshorter)].
  - by apply Hrest.
  - apply IH; [lia|done|done|done].
Qed.

Lemma doomed_table (entries : list table_entry) (rest : string) :
  Forall well_formed_entry entries →
  doomed rest → doomed (render_table entries +:+ rest).
Proof.
  intros Hwf Hrest. induction Hwf as [|e entries He _ IH]; [done|].
  cbn [render_table foldr]. fold (render_table entries).
  destruct (render_entry_line e He) as (l & -> & Hnl).
  rewrite !append_assoc, append_cons, append_nil_l.
  by apply (doomed_line_upto (S (String.length l))); [lia| |].
Qed.

(** X2: a line that does not start with [#] and has no tab (a blank line, for
    instance) aborts [get_genres] with [ValueError], whatever comes before
    and after it: there is no second field to unpack. *)
Theorem get_genres_short_line (entries : list table_entry) (l rest : string) :
  Forall well_formed_entry entries →
  Str.tab ∉ chars l → Str.newline ∉ chars l → (∀ s, l ≠ String "#" s) →
  get_genres (render_table entries +:+ l +:+ String Str.newline rest) = Raise ValueError.
Proof.
  intros Hwf Htab Hnl Hhash. unfold get_genres.
  rewrite (doomed_table entries (l +:+ String Str.newline rest) Hwf); [done| |done].
  intros ids genres _.
  destruct (readline_prefix l rest Hnl) as (p & q & r & -> & Hline).
  rewrite readlines_unfold, Hline.
  rewrite chars_append, not_elem_of_app in Htab. destruct Htab as [Htab _].
  assert (get_genres_step (ids, genres) (p +:+ String Str.newline "") = Raise ValueError)
    as Hstep.
  { unfold get_genres_step.
    assert (Str.tab ∉ chars (Str.strip (p +:+ String Str.newline ""))) as Hstrip.
    { intros Hin%chars_strip. rewrite chars_append in Hin.
      apply elem_of_app in Hin as [Hin|Hin]; [done|].
      simpl in Hin. by apply elem_of_cons in Hin as [?|?%elem_of_nil]. }
    rewrite (split_no_sep _ _ Hstrip).
    destruct p as [|c p]; [done|]. rewrite append_cons.
    rewrite decide_True; [done|]. intros ->. by destruct (Hhash (p +:+ q)). }
  destruct (p +:+ String Str.newline "") as [|c line] eqn:Hp; [by destruct p|].
  cbn [for_each]. by rewrite Hstep.
Qed.

Lemma get_genres_short_line_witness :
  get_genres (render_table Sample.genre_table +:+ "" +:+
              String Str.newline (table_line ["TRAAAFD128F92F423A"; "Blues"])) =
    Raise ValueError.
Proof.
  apply (get_genres_short_line Sample.genre_table "").
  - repeat (constructor;
          [first [ by_computation
                 | split; [|intros s; discriminate];
                   repeat (constructor;
                           [repeat split; first [discriminate | by_computation | reflexivity]|]);
                   constructor ]|]).
    constructor.
  - by_computation.
  - by_computation.
  - intros s. discriminate.
Defined.

(** ** The vocabulary *)

Lemma find_index_lt {A} `{EqDecision A} (x : A) (l : list A) (i : nat) :
  find_index x l = Some i → (i < length l)%nat.
Proof.
  intros Hfind. destruct (find_index_Some x l i Hfind) as [Hi _].
  by apply lookup_lt_Some in Hi.
Qed.

Lemma find_index_elem_of {A} `{EqDecision A} (x : A) (l : list A) :
  x ∈ l → ∃ i, find_index x l = Some i.
Proof.
  intros Hin. destruct (find_index x l) as [i|] eqn:Hfind; [by eexists|].
  by apply find_index_None in Hfind.
Qed.

Lemma find_index_NoDup {A} `{EqDecision A} (l : list A) (i : nat) (x : A) :
  NoDup l → l !! i = Some x → find_index x l = Some i.
Proof.
  intros Hnodup Hi.
  destruct (find_index_elem_of x l) as [j Hj]; [by eapply list_elem_of_lookup_2|].
  destruct (find_index_Some x l j Hj) as [Hj' _].
  by rewrite (NoDup_lookup l i j x Hnodup Hi Hj').
Qed.

Lemma label_dict_prefix (label_list l' : list string) (g : string) :
  l' ⊆ label_list →
  (list_to_map
     (omap (λ lbl, (λ i, (lbl, Z.of_nat i)) <$> find_index lbl label_list) l')
     : gmap string Z) !! g =
    if decide (g ∈ l') then Z.of_nat <$> find_index g label_list else None.
Proof.
  induction l' as [|x l' IH]; intros Hsub.
  - cbn [omap list_omap list_to_map foldr]. rewrite lookup_empty.
    destruct (decide (g ∈ [])) as [Hin|]; [by apply elem_of_nil in Hin|done].
  - destruct (find_index_elem_of x label_list) as [i Hi]; [apply Hsub; by left|].
    cbn [omap list_omap]. rewrite Hi. cbn [fmap option_fmap option_map list_to_map foldr].
    cbn [fst snd]. assert (l' ⊆ label_list) as Hsub' by (intros y Hy; apply Hsub; by right).
    destruct (decide (x = g)) as [->|Hne].
    + rewrite lookup_insert_eq, decide_True by (by left). by rewrite Hi.
    + rewrite lookup_insert_ne by done. rewrite (IH Hsub').
      destruct (decide (g ∈ l')) as [Hin|Hnin].
      * by rewrite decide_True by (by right).
      * rewrite decide_False; [done|]. intros [->|?]%elem_of_cons; done.
Qed.

Lemma label_dict_lookup (label_list : list string) (g : string) :
  label_dict label_list !! g = Z.of_nat <$> find_index g label_list.
Proof.
  unfold label_dict. rewrite label_dict_prefix by done.
  destruct (decide (g ∈ label_list)) as [Hin|Hnin]; [done|].
  by rewrite (proj2 (find_index_None g label_list) Hnin).
Qed.

Lemma label_dict_Some_item (label_list : list string) (g : string) (i : Z) :
  label_dict label_list !! g = Some i →
  0 ≤ i < Z.of_nat (num_classes label_list) ∧ item_Z label_list i = Ok g.
Proof.
  rewrite label_dict_lookup.
  destruct (find_index g label_list) as [j|] eqn:Hfind; [|done].
  intros [= <-].
  destruct (find_index_Some g label_list j Hfind) as [Hj _].
  pose proof (find_index_lt _ _ _ Hfind) as Hlt.
  unfold num_classes. split; [lia|].
  unfold item_Z. rewrite (proj2 (Z.leb_le 0 _)) by lia.
  rewrite Nat2Z.id. by apply item_lookup.
Qed.

(** X4: the keys of [label_dict] are the elements of [label_list]; the value
    of a key is a position of [label_list] that holds the key, so
    [label_list[label_dict[g]] = g], and a genre outside the list has no
    entry. *)
Theorem label_dict_inverse (label_list : list string) (g : string) :
  (g ∈ label_list ↔ is_Some (label_dict label_list !! g)) ∧
  (g ∉ label_list ↔ getitem (label_dict label_list) g = Raise KeyError) ∧
  (∀ i, label_dict label_list !! g = Some i →
        0 ≤ i < Z.of_nat (num_classes label_list) ∧
        item_Z label_list i = Ok g).
Proof.
  rewrite label_dict_lookup. unfold getitem. rewrite label_dict_lookup.
  destruct (find_index g label_list) as [j|] eqn:Hfind; simpl.
  - destruct (find_index_Some g label_list j Hfind) as [Hj _].
    split; [|split].
    + split; [by eauto|]. intros _. by eapply list_elem_of_lookup_2.
    + split; [|done]. intros Hnot. destruct Hnot. by eapply list_elem_of_lookup_2.
    + intros i [= <-]. apply label_dict_Some_item.
      rewrite label_dict_lookup. by rewrite Hfind.
  - apply find_index_None in Hfind. split; [|split].
    + split; [done|]. by intros [? ?].
    + done.
    + done.
Qed.

(** X5: when [label_list] has no duplicates (it is made from a set), looking
    up the genre at position [i] gives [i] back. *)
Theorem label_dict_round_trip (label_list : list string) (i : nat) (g : string) :
  NoDup label_list →
  label_list !! i = Some g →
  getitem (label_dict label_list) g = Ok (Z.of_nat i).
Proof.
  intros Hnodup Hi. unfold getitem. rewrite label_dict_lookup.
  by rewrite (find_index_NoDup _ _ _ Hnodup Hi).
Qed.

Lemma label_dict_round_trip_witness :
  getitem (label_dict Sample.label_list) "Rap" = Ok 1.
Proof.
  apply (label_dict_round_trip Sample.label_list 1 "Rap").
  - by_computation.
  - reflexivity.
Defined.

(** ** One-hot rows *)

Lemma one_hot_vector_lookup (n c j : nat) :
  (j < n)%nat → one_hot_vector n c !! j = Some (if decide (c = j) then 1 else 0).
Proof.
  intros Hj. unfold one_hot_vector. by rewrite list_lookup_fmap, lookup_seq_lt.
Qed.

Lemma one_hot_vector_length (n c : nat) : length (one_hot_vector n c) = n.
Proof. unfold one_hot_vector. by rewrite length_fmap, length_seq. Qed.

(** Indexing [np.eye(n)] with a Python integer. *)
Lemma item_Z_eye (n : nat) (l : Z) :
  (- Z.of_nat n ≤ l < Z.of_nat n →
   item_Z (eye n) l = Ok (one_hot_vector n (Z.to_nat (l mod Z.of_nat n)))) ∧
  (¬ (- Z.of_nat n ≤ l < Z.of_nat n) → item_Z (eye n) l = Raise IndexError).
Proof.
  unfold item_Z. rewrite eye_length. split.
  - intros Hl. destruct (Z.leb_spec 0 l) as [Hpos|Hneg].
    + rewrite Z.mod_small by lia. apply item_lookup, eye_lookup. lia.
    + rewrite (proj2 (Z.leb_le _ _)) by lia.
      replace (l mod Z.of_nat n) with (Z.of_nat n + l).
      * apply item_lookup, eye_lookup. lia.
      * apply (Z.mod_unique _ _ (-1)); lia.
  - intros Hl. destruct (Z.leb_spec 0 l) as [Hpos|Hneg].
    + apply item_out_of_range. rewrite eye_length. lia.
    + destruct (Z.leb_spec (- Z.of_nat n) l); [lia|done].
Qed.

Lemma mapM_raises {A B} (f : A → result B) (l : list A) (e : exn) :
  (∀ x e', f x = Raise e' → e' = e) →
  (∃ x, x ∈ l ∧ raises (f x)) →
  mapM f l = Raise e.
Proof.
  intros Honly. induction l as [|x l IH]; intros (x' & Hin & Hraise).
  - by apply elem_of_nil in Hin.
  - simpl. destruct (f x) as [y|e'] eqn:Hfx; simpl.
    + rewrite IH; [done|]. apply elem_of_cons in Hin as [->|Hin]; [|by eauto].
      by rewrite Hfx in Hraise.
    + by rewrite (Honly _ _ Hfx).
Qed.

(** X6: labels within [-num_classes, num_classes) always have a one-hot
    encoding: one row per label, each of length [num_classes], holding 1 at
    the label's position (a negative label counts from the end) and 0
    everywhere else. *)
Theorem one_hot_rows (label_list : list string) (labels : list Z) :
  let n := num_classes label_list in
  (∀ l, l ∈ labels → - Z.of_nat n ≤ l < Z.of_nat n) →
  ∃ hot, one_hot label_list labels = Ok hot ∧
         length hot = length labels ∧
         ∀ i l, labels !! i = Some l →
           ∃ row, hot !! i = Some row ∧ length row = n ∧
                  ∀ j, (j < n)%nat →
                    row !! j = Some (if decide (Z.of_nat j = l mod Z.of_nat n) then 1 else 0).
Proof.
  intros n Hrange.
  destruct (mapM_all_Ok (item_Z (eye n)) labels) as [hot Hhot].
  { intros l Hl. eexists. by apply item_Z_eye, Hrange. }
  exists hot. split; [done|]. split; [by apply mapM_Ok_length in Hhot|].
  intros i l Hl.
  destruct (mapM_Ok_lookup _ _ _ _ _ Hhot Hl) as (row & Hrow & Heye).
  assert (- Z.of_nat n ≤ l < Z.of_nat n) as Hl' by (by eapply Hrange, list_elem_of_lookup_2).
  rewrite (proj1 (item_Z_eye n l) Hl') in Heye. injection Heye as <-.
  exists (one_hot_vector n (Z.to_nat (l mod Z.of_nat n))).
  split; [done|]. split; [apply one_hot_vector_length|].
  intros j Hj. rewrite one_hot_vector_lookup by done.
  pose proof (Z.mod_pos_bound l (Z.of_nat n) ltac:(lia)).
  destruct (decide (Z.to_nat (l mod Z.of_nat n) = j)), (decide (Z.of_nat j = l mod Z.of_nat n));
    (done || lia).
Qed.

Lemma one_hot_rows_witness :
  ∃ hot, one_hot Demo.labels [2; -1] = Ok hot ∧
         length hot = 2%nat ∧
         ∀ i l, [2; -1] !! i = Some l →
           ∃ row, hot !! i = Some row ∧ length row = 4%nat ∧
                  ∀ j, (j < 4)%nat →
                    row !! j = Some (if decide (Z.of_nat j = l mod 4) then 1 else 0).
Proof.
  apply (one_hot_rows Demo.labels [2; -1]).
  intros l Hl.
  repeat (apply elem_of_cons in Hl as [->|Hl]); [| |by apply elem_of_nil in Hl];
    vm_compute; split; congruence.
Defined.

(** X7: a single label outside [-num_classes, num_classes) makes [one_hot]
    raise [IndexError], whatever the other labels are. *)
Theorem one_hot_out_of_range (label_list : list string) (labels : list Z) (l : Z) :
  l ∈ labels →
  ¬ (- Z.of_nat (num_classes label_list) ≤ l < Z.of_nat (num_classes label_list)) →
  one_hot label_list labels = Raise IndexError.
Proof.
  intros Hin Hout. apply mapM_raises.
  - intros x e Hx.
    destruct (decide (- Z.of_nat (num_classes label_list) ≤ x
                      < Z.of_nat (num_classes label_list))) as [Hx'|Hx'].
    + by rewrite (proj1 (item_Z_eye _ x) Hx') in Hx.
    + rewrite (proj2 (item_Z_eye _ x) Hx') in Hx. congruence.
  - exists l. split; [done|]. by rewrite (proj2 (item_Z_eye _ l) Hout).
Qed.

Lemma one_hot_out_of_range_witness :
  one_hot Demo.labels [1; 4] = Raise IndexError.
Proof.
  apply (one_hot_out_of_range Demo.labels [1; 4] 4).
  - by_computation.
  - vm_compute. intros [_ H]. discriminate H.
Defined.

Lemma find_index_first {A} `{EqDecision A} (x : A) (l : list A) (i : nat) :
  l !! i = Some x → (∀ j, (j < i)%nat → l !! j ≠ Some x) → find_index x l = Some i.
Proof.
  intros Hi Hfirst. destruct (find_index x l) as [i'|] eqn:Hfind.
  - destruct (find_index_Some _ _ _ Hfind) as [Hi' Hfirst'].
    destruct (Nat.lt_trichotomy i i') as [Hlt|[->|Hgt]]; [|done|].
    + by destruct (Hfirst' i Hlt).
    + by destruct (Hfirst i' Hgt).
  - apply find_index_None in Hfind. destruct Hfind. by eapply list_elem_of_lookup_2.
Qed.

Lemma find_index_one_hot_vector (n c : nat) :
  (c < n)%nat → find_index 1 (one_hot_vector n c) = Some c.
Proof.
  intros Hc. apply find_index_first.
  - rewrite one_hot_vector_lookup by done. by rewrite decide_True.
  - intros j Hj. rewrite one_hot_vector_lookup by lia.
    rewrite decide_False by lia. discriminate.
Qed.

(** X8: encoding a genre and decoding the model's answer are inverse to each
    other: when the model's output for the file is the one-hot row of
    [label_dict[g]], [make_prediction] returns [g]. *)
Theorem make_prediction_round_trip (PrettyMIDI : string → outcome MidiFile)
    (label_list : list string) (g : string) (c : Z) (row : list Z)
    (predict : list sample → result (list (list Z))) (path : string)
    (features : sample) (rest : list (list Z)) :
  getitem (label_dict label_list) g = Ok c →
  one_hot label_list [c] = Ok [row] →
  get_features PrettyMIDI path = Ok features →
  predict [features] = Ok (row :: rest) →
  make_prediction PrettyMIDI label_list (FittedMLP predict) path = Ok g.
Proof.
  intros Hc Hrow Hfeatures Hpredict.
  unfold getitem in Hc.
  destruct (label_dict label_list !! g) as [c'|] eqn:Hdict; [|done].
  injection Hc as ->.
  destruct (label_dict_Some_item _ _ _ Hdict) as [Hrange Hitem].
  apply one_hot_single in Hrow; [|lia]. subst row.
  rewrite (make_prediction_dense _ _ _ _ _ _ _ Hfeatures Hpredict).
  rewrite find_index_one_hot_vector by (unfold num_classes in *; lia).
  unfold item_Z in Hitem. by rewrite (proj2 (Z.leb_le 0 c)) in Hitem by lia.
Qed.

Lemma make_prediction_round_trip_witness :
  make_prediction Demo.codec Demo.labels (Demo.stub [0; 0; 1; 0]) "plain.mid" = Ok "C".
Proof.
  eapply (make_prediction_round_trip Demo.codec Demo.labels "C" 2 [0; 0; 1; 0]
            (λ _, Ok [[0; 0; 1; 0]]) "plain.mid" _ []); reflexivity.
Defined.

(** ** Scoring, continued *)

Lemma exact_matches_le (hot preds : list (list Z)) :
  (exact_matches hot preds ≤ length hot)%nat.
Proof.
  unfold exact_matches. etransitivity; [apply length_filter|].
  rewrite length_zip_with. lia.
Qed.

Lemma index_matches_le (labels preds : list Z) :
  (index_matches labels preds ≤ length labels)%nat.
Proof.
  unfold index_matches. etransitivity; [apply length_filter|].
  rewrite length_zip_with. lia.
Qed.

Lemma exact_matches_same (hot : list (list Z)) : exact_matches hot hot = length hot.
Proof.
  unfold exact_matches. induction hot as [|h hot IH]; [done|].
  cbn [zip zip_with]. rewrite filter_cons. cbn [fst snd].
  rewrite decide_True by done. simpl. by rewrite IH.
Qed.

Lemma index_matches_same (labels : list Z) : index_matches labels labels = length labels.
Proof.
  unfold index_matches. induction labels as [|l labels IH]; [done|].
  cbn [zip zip_with]. rewrite filter_cons. cbn [fst snd].
  rewrite decide_True by done. simpl. by rewrite IH.
Qed.

Lemma calculate_accuracy_dense label_list
    (predict : list sample → result (list (list Z))) t_features t_labels hot preds :
  predict (Some <$> t_features) = Ok preds →
  one_hot label_list t_labels = Ok hot →
  length t_features = length t_labels → length preds = length t_labels →
  calculate_accuracy label_list (FittedMLP predict) t_features t_labels =
    truediv (exact_matches hot preds) (length t_labels).
Proof.
  intros Hpreds Hhot Hlen Hplen. unfold calculate_accuracy. simpl.
  rewrite Hpreds. simpl. rewrite Hhot. simpl.
  apply mapM_Ok_length in Hhot as Hhotlen.
  rewrite (for_each_ext _ (validation_step (FittedMLP predict) t_labels hot (Rows preds)))
    by (intros; apply test_step_validation_step).
  rewrite validation_count_dense by lia. simpl.
  rewrite !drop_0, Hlen. rewrite <- Hhotlen at 1. rewrite <- Hplen at 1.
  by rewrite !firstn_all.
Qed.

Lemma calculate_accuracy_scalar label_list
    (predict : list sample → result (list Z)) t_features t_labels hot preds :
  predict (Some <$> t_features) = Ok preds →
  one_hot label_list t_labels = Ok hot →
  length t_features = length t_labels → length preds = length t_labels →
  calculate_accuracy label_list (FittedSVC predict) t_features t_labels =
    truediv (index_matches t_labels preds) (length t_labels).
Proof.
  intros Hpreds Hhot Hlen Hplen. unfold calculate_accuracy. simpl.
  rewrite Hpreds. simpl. rewrite Hhot. simpl.
  rewrite (for_each_ext _ (validation_step (FittedSVC predict) t_labels hot (Indices preds)))
    by (intros; apply test_step_validation_step).
  rewrite validation_count_scalar by lia. simpl.
  rewrite !drop_0, Hlen. rewrite <- Hplen at 2.
  by rewrite !firstn_all.
Qed.

Lemma truediv_bounds (count n : nat) :
  (count ≤ n)%nat → (0 < n)%nat →
  ∃ acc, truediv count n = Ok acc ∧ (0 <= acc)%Q ∧ (acc <= 1)%Q.
Proof.
  intros Hle Hn. destruct n as [|n]; [lia|]. eexists. split; [reflexivity|].
  unfold Qle. cbn [Qnum Qden]. lia.
Qed.

Lemma truediv_all (n : nat) :
  (0 < n)%nat → ∃ acc, truediv n n = Ok acc ∧ (acc == 1)%Q.
Proof.
  intros Hn. destruct n as [|n]; [lia|]. eexists. split; [reflexivity|].
  unfold Qeq. cbn [Qnum Qden]. lia.
Qed.

(** X9: on a non-empty test set with labels in range and one prediction per
    example, [calculate_accuracy] returns the fraction of exact matches, a
    number between 0 and 1, for either kind of model. *)
Theorem calculate_accuracy_fraction (label_list : list string)
    (t_features : list (list Q)) (t_labels : list Z) (hot : list (list Z)) :
  length t_features = length t_labels →
  t_labels ≠ [] →
  one_hot label_list t_labels = Ok hot →
  (∀ predict preds,
     predict (Some <$> t_features) = Ok preds → length preds = length t_labels →
     ∃ acc, calculate_accuracy label_list (FittedMLP predict) t_features t_labels = Ok acc ∧
            acc = (Z.of_nat (exact_matches hot preds) # Pos.of_nat (length t_labels))%Q ∧
            (0 <= acc)%Q ∧ (acc <= 1)%Q) ∧
  (∀ predict preds,
     predict (Some <$> t_features) = Ok preds → length preds = length t_labels →
     ∃ acc, calculate_accuracy label_list (FittedSVC predict) t_features t_labels = Ok acc ∧
            acc = (Z.of_nat (index_matches t_labels preds) # Pos.of_nat (length t_labels))%Q ∧
            (0 <= acc)%Q ∧ (acc <= 1)%Q).
Proof.
  intros Hlen Hne Hhot.
  assert (0 < length t_labels)%nat as Hpos by (destruct t_labels; [done|simpl; lia]).
  apply mapM_Ok_length in Hhot as Hhotlen.
  split; intros predict preds Hpreds Hplen.
  - rewrite (calculate_accuracy_dense _ _ _ _ _ _ Hpreds Hhot Hlen Hplen).
    destruct (truediv_bounds (exact_matches hot preds) (length t_labels)) as (acc & Hacc & Hb);
      [rewrite <- Hhotlen; apply exact_matches_le|done|].
    exists acc. split; [done|]. split; [|done].
    destruct (length t_labels); [lia|]. by injection Hacc as <-.
  - rewrite (calculate_accuracy_scalar _ _ _ _ _ _ Hpreds Hhot Hlen Hplen).
    destruct (truediv_bounds (index_matches t_labels preds) (length t_labels)) as (acc & Hacc & Hb);
      [apply index_matches_le|done|].
    exists acc. split; [done|]. split; [|done].
    destruct (length t_labels); [lia|]. by injection Hacc as <-.
Qed.

Lemma calculate_accuracy_fraction_witness :
  ∃ acc, calculate_accuracy Demo.labels (Demo.constant [0; 1; 0; 0])
                            [[0%Q]; [1%Q]] [1; 2] = Ok acc ∧
         acc = (1 # 2)%Q ∧ (0 <= acc)%Q ∧ (acc <= 1)%Q.
Proof.
  refine (proj1 (calculate_accuracy_fraction Demo.labels [[0%Q]; [1%Q]] [1; 2]
                   [[0; 1; 0; 0]; [0; 0; 1; 0]] _ _ _)
                _ [[0; 1; 0; 0]; [0; 1; 0; 0]] _ _); (reflexivity || discriminate).
Defined.

(** X10: a model whose predictions are exactly the one-hot rows of the labels
    (or, for an [SVC], exactly the labels) gets accuracy 1. *)
Theorem calculate_accuracy_perfect (label_list : list string)
    (t_features : list (list Q)) (t_labels : list Z) (hot : list (list Z)) :
  length t_features = length t_labels →
  t_labels ≠ [] →
  one_hot label_list t_labels = Ok hot →
  (∀ predict, predict (Some <$> t_features) = Ok hot →
     ∃ acc, calculate_accuracy label_list (FittedMLP predict) t_features t_labels = Ok acc ∧
            (acc == 1)%Q) ∧
  (∀ predict, predict (Some <$> t_features) = Ok t_labels →
     ∃ acc, calculate_accuracy label_list (FittedSVC predict) t_features t_labels = Ok acc ∧
            (acc == 1)%Q).
Proof.
  intros Hlen Hne Hhot.
  assert (0 < length t_labels)%nat as Hpos by (destruct t_labels; [done|simpl; lia]).
  apply mapM_Ok_length in Hhot as Hhotlen.
  split; intros predict Hpreds.
  - rewrite (calculate_accuracy_dense _ _ _ _ _ _ Hpreds Hhot Hlen Hhotlen).
    rewrite exact_matches_same, Hhotlen. by apply truediv_all.
  - rewrite (calculate_accuracy_scalar _ _ _ _ _ _ Hpreds Hhot Hlen eq_refl).
    rewrite index_matches_same. by apply truediv_all.
Qed.

Lemma calculate_accuracy_perfect_witness :
  ∃ acc, calculate_accuracy Demo.labels (FittedSVC (λ _, Ok [1; 2]))
                            [[0%Q]; [1%Q]] [1; 2] = Ok acc ∧ (acc == 1)%Q.
Proof.
  refine (proj2 (calculate_accuracy_perfect Demo.labels [[0%Q]; [1%Q]] [1; 2]
                   [[0; 1; 0; 0]; [0; 0; 1; 0]] _ _ _) _ _);
    (reflexivity || discriminate).
Defined.

(** X11: on an empty test set [calculate_accuracy] never returns: when the
    model's [predict] and the one-hot encoding succeed it reaches the
    division and raises [ZeroDivisionError]. *)
Theorem calculate_accuracy_empty (label_list : list string) (clf : classifier)
    (t_labels : list Z) :
  raises (calculate_accuracy label_list clf [] t_labels) ∧
  (∀ preds hot, predict clf [] = Ok preds → one_hot label_list t_labels = Ok hot →
     calculate_accuracy label_list clf [] t_labels = Raise ZeroDivisionError).
Proof.
  unfold calculate_accuracy. cbn [fmap list_fmap length seq for_each].
  destruct (predict clf []) as [preds|e]; simpl; [|done].
  destruct (one_hot label_list t_labels) as [hot|e]; simpl; [|split; [done|by intros ? ? _ ?]].
  split; [done|]. by intros ? ? _ _.
Qed.

(** ** Model selection, continued *)

Lemma keep_best_invariant (results : list (classifier * Q)) (st : option classifier * Q) :
  let out := foldl keep_best st results in
  (st.2 <= out.2)%Q ∧
  (∀ r, r ∈ results → (r.2 <= out.2)%Q) ∧
  (out = st ∨ ∃ r, r ∈ results ∧ out = (Some r.1, r.2) ∧ (st.2 < r.2)%Q).
Proof.
  revert st. induction results as [|r results IH]; intros st; cbn [foldl].
  - split; [apply Qle_refl|]. split; [by intros r Hr%elem_of_nil|by left].
  - destruct (Qgt_bool r.2 st.2) eqn:Hgt.
    + assert (keep_best st r = (Some r.1, r.2)) as -> by (unfold keep_best; by rewrite Hgt).
      apply Qgt_bool_true in Hgt.
      destruct (IH (Some r.1, r.2)) as (Hle & Hall & Hout). cbn [snd] in Hle, Hout.
      split; [eapply Qle_trans; [apply Qlt_le_weak, Hgt|done]|].
      split.
      * intros r' [->|Hr']%elem_of_cons; [done|by apply Hall].
      * right. destruct Hout as [Hout|(r' & Hr' & Hout & Hlt)].
        -- exists r. split; [by left|]. split; [by rewrite Hout|done].
        -- exists r'. split; [by right|]. split; [done|].
           eapply Qlt_trans; [apply Hgt|apply Hlt].
    + assert (keep_best st r = st) as -> by (unfold keep_best; by rewrite Hgt).
      apply Qgt_bool_false in Hgt.
      destruct (IH st) as (Hle & Hall & Hout).
      split; [done|]. split.
      * intros r' [->|Hr']%elem_of_cons; [by eapply Qle_trans|by apply Hall].
      * destruct Hout as [Hout|(r' & Hr' & Hout & Hlt)]; [by left|].
        right. exists r'. split; [by right|done].
Qed.

(** X12: when every candidate is fitted and scored without error,
    [train_model] returns, and what it returns is consistent: the printed
    accuracy is at least 0 and at least every candidate's accuracy, and
    either no model is returned and the printed accuracy is 0, or the
    returned model is one of the fitted candidates, with a positive accuracy
    that is the one printed. *)
Theorem train_model_on_result (label_list : list string) (clfs : list estimator)
    (t_features : list (list Q)) (t_labels : list Z)
    (v_features : list (list Q)) (v_labels : list Z)
    (results : list (classifier * Q)) :
  Forall2 (λ clf r, evaluate label_list t_features t_labels v_features v_labels clf = Ok r)
          clfs results →
  ∃ out,
    train_model_on label_list clfs t_features t_labels v_features v_labels = Ok out ∧
    (0 <= printed_best_accuracy out)%Q ∧
    (∀ r, r ∈ results → (r.2 <= printed_best_accuracy out)%Q) ∧
    ((returned_clf out = None ∧ printed_best_accuracy out = 0%Q) ∨
     (∃ fitted acc, (fitted, acc) ∈ results ∧ returned_clf out = Some fitted ∧
                    printed_best_accuracy out = acc ∧ (0 < acc)%Q)).
Proof.
  intros Hall. unfold train_model_on.
  rewrite (for_each_train_step _ _ _ _ _ _ _ _ Hall).
  destruct (keep_best_invariant results (None, 0%Q)) as (Hle & Hdom & Hout).
  destruct (foldl keep_best (None, 0%Q) results) as [best_clf best_accuracy] eqn:Hfold.
  eexists. split; [reflexivity|]. cbn [printed_best_accuracy returned_clf snd] in *.
  split; [done|]. split; [done|].
  destruct Hout as [[= -> ->]|([fitted acc] & Hr & [= -> ->] & Hlt)].
  - by left.
  - right. by exists fitted, acc.
Qed.

Lemma train_model_on_result_witness :
  ∃ out,
    train_model_on Demo.labels
      [Demo.mlp_always [0; 0; 1; 0]; Demo.svc_always 1; Demo.mlp_always [0; 1; 0; 0]]
      [[0%Q]; [1%Q]] [0; 2] [[2%Q]; [3%Q]] [1; 2] = Ok out ∧
    (0 <= printed_best_accuracy out)%Q ∧
    (∀ r, r ∈ [(Demo.constant [0; 0; 1; 0], (1 # 2)%Q);
               (Demo.constant_svc 1, (1 # 2)%Q);
               (Demo.constant [0; 1; 0; 0], (1 # 2)%Q)] →
          (r.2 <= printed_best_accuracy out)%Q) ∧
    ((returned_clf out = None ∧ printed_best_accuracy out = 0%Q) ∨
     (∃ fitted acc,
        (fitted, acc) ∈ [(Demo.constant [0; 0; 1; 0], (1 # 2)%Q);
                         (Demo.constant_svc 1, (1 # 2)%Q);
                         (Demo.constant [0; 1; 0; 0], (1 # 2)%Q)] ∧
        returned_clf out = Some fitted ∧
        printed_best_accuracy out = acc ∧ (0 < acc)%Q)).
Proof.
  apply (train_model_on_result Demo.labels
           [Demo.mlp_always [0; 0; 1; 0]; Demo.svc_always 1; Demo.mlp_always [0; 1; 0; 0]]
           [[0%Q]; [1%Q]] [0; 2] [[2%Q]; [3%Q]] [1; 2]).
  repeat (constructor; [reflexivity|]). constructor.
Defined.

Lemma for_each_app {S A} (f : S → A → result S) (s : S) (l1 l2 : list A) :
  for_each f s (l1 ++ l2) = (s' ← for_each f s l1; for_each f s' l2).
Proof.
  revert s. induction l1 as [|x l1 IH]; intros s; simpl; [done|].
  destruct (f s x); simpl; [apply IH|done].
Qed.

Lemma train_step_raises label_list t_features t_labels v_features v_labels best clf e :
  evaluate label_list t_features t_labels v_features v_labels clf = Raise e →
  train_step label_list t_features t_labels v_features v_labels best clf = Raise e.
Proof. intros Hclf. unfold train_step. by rewrite Hclf. Qed.

(** X13: a candidate whose fitting or scoring raises aborts [train_model] with
    that exception: the candidates scored before it are forgotten and the
    ones after it are never fitted. *)
Theorem train_model_on_propagates (label_list : list string)
    (before after : list estimator) (clf : estimator)
    (t_features : list (list Q)) (t_labels : list Z)
    (v_features : list (list Q)) (v_labels : list Z)
    (results : list (classifier * Q)) (e : exn) :
  Forall2 (λ clf r, evaluate label_list t_features t_labels v_features v_labels clf = Ok r)
          before results →
  evaluate label_list t_features t_labels v_features v_labels clf = Raise e →
  train_model_on label_list (before ++ clf :: after)
                 t_features t_labels v_features v_labels = Raise e.
Proof.
  intros Hbefore Hclf. unfold train_model_on.
  rewrite for_each_app, (for_each_train_step _ _ _ _ _ _ _ _ Hbefore).
  cbn [mbind result_bind for_each]. by rewrite (train_step_raises _ _ _ _ _ _ _ _ Hclf).
Qed.

Lemma train_model_on_propagates_witness :
  train_model_on Demo.labels
    ([Demo.mlp_always [0; 0; 1; 0]] ++
     MLPClassifier (λ _ _, Raise (LibraryError "no convergence")) :: [Demo.svc_always 1])
    [[0%Q]; [1%Q]] [0; 2] [[2%Q]; [3%Q]] [1; 2] =
    Raise (LibraryError "no convergence").
Proof.
  apply (train_model_on_propagates Demo.labels
           [Demo.mlp_always [0; 0; 1; 0]] [Demo.svc_always 1]
           (MLPClassifier (λ _ _, Raise (LibraryError "no convergence")))
           [[0%Q]; [1%Q]] [0; 2] [[2%Q]; [3%Q]] [1; 2]
           [(Demo.constant [0; 0; 1; 0], (1 # 2)%Q)]).
  - repeat (constructor; [reflexivity|]). constructor.
  - reflexivity.
Defined.

(** X14: with an empty validation set [train_model] never returns: a candidate
    that is fitted and predicts reaches the division by the number of
    validation examples, which raises [ZeroDivisionError]. *)
Theorem train_model_on_empty_validation (label_list : list string)
    (clf : estimator) (clfs : list estimator)
    (t_features : list (list Q)) (t_labels : list Z) (v_features : list (list Q)) :
  raises (train_model_on label_list (clf :: clfs) t_features t_labels v_features []) ∧
  (∀ fitted preds, predict fitted (Some <$> v_features) = Ok preds →
     validation_accuracy fitted v_features [] [] = Raise ZeroDivisionError).
Proof.
  split.
  - assert (∀ best, raises (train_step label_list t_features t_labels v_features []
                                         best clf)) as Hstep.
    { intros best. unfold train_step, evaluate.
      destruct (one_hot label_list t_labels) as [t_hot|e]; simpl; [|done].
      destruct clf as [fit|fit].
      - destruct (fit t_features t_hot) as [p|e]; simpl; [|done].
        unfold validation_accuracy. simpl. by destruct (p (Some <$> v_features)).
      - destruct (fit t_features t_labels) as [p|e]; simpl; [|done].
        unfold validation_accuracy. simpl. by destruct (p (Some <$> v_features)). }
    unfold train_model_on. cbn [for_each]. specialize (Hstep (None, 0%Q)).
    by destruct (train_step label_list t_features t_labels v_features [] (None, 0%Q) clf).
  - intros fitted preds Hpreds. unfold validation_accuracy. by rewrite Hpreds.
Qed.

(** ** Prediction with a scalar model *)

(** X15: [make_prediction] never returns a genre for an [SVC]: its prediction
    is a class index, which [list(...)] cannot iterate over, so the call
    raises [TypeError] as soon as [predict] returns a prediction. *)
Theorem make_prediction_svc (PrettyMIDI : string → outcome MidiFile)
    (label_list : list string) (predict : list sample → result (list Z))
    (path : string) :
  raises (make_prediction PrettyMIDI label_list (FittedSVC predict) path) ∧
  (∀ features c rest,
     get_features PrettyMIDI path = Ok features →
     predict [features] = Ok (c :: rest) →
     make_prediction PrettyMIDI label_list (FittedSVC predict) path = Raise TypeError).
Proof.
  split.
  - unfold make_prediction.
    destruct (get_features_returns PrettyMIDI path) as [features ->]. simpl.
    by destruct (predict [features]) as [[|c rest]|e].
  - intros features c rest Hfeatures Hpredict. unfold make_prediction.
    rewrite Hfeatures. simpl. by rewrite Hpredict.
Qed.

(** ** The dataset builder, continued *)

Lemma length_omap_le {A B} (f : A → option B) (l : list A) :
  (length (omap f l) ≤ length l)%nat.
Proof.
  induction l as [|x l IH]; [done|]. cbn [omap list_omap length].
  change (list_omap A B f l) with (omap f l).
  destruct (f x); cbn [length]; lia.
Qed.

(** The rows of the labelled matrix: four features and a class index of
    the vocabulary. *)
Lemma extract_midi_features_shape (PrettyMIDI : string → outcome MidiFile)
    (label_list : list string) (path_df : list PathRow) :
  (∀ row, row ∈ path_df → is_Some (label_dict label_list !! Genre row)) →
  ∃ out, extract_midi_features PrettyMIDI label_list path_df = Ok out ∧
         (length out ≤ length path_df)%nat ∧
         Forall (λ row, ∃ features c,
                   row = features ++ [inject_Z c] ∧ length features = 4%nat ∧
                   0 ≤ c < Z.of_nat (num_classes label_list)) out.
Proof.
  intros Hknown. unfold extract_midi_features. rewrite extract_loop_spec by done.
  eexists. split; [reflexivity|]. split; [apply length_omap_le|].
  apply Forall_forall.
  intros row (src & Hsrc & Hrow)%list_elem_of_omap.
  unfold labeled_row in Hrow.
  destruct (get_features_cases PrettyMIDI (Path src)) as [(v & Hv & Hlen)|Hnone];
    [|by rewrite Hnone in Hrow].
  rewrite Hv in Hrow.
  destruct (label_dict label_list !! Genre src) as [c|] eqn:Hc; [|done].
  injection Hrow as <-.
  destruct (label_dict_Some_item _ _ _ Hc) as [Hrange _].
  by exists v, c.
Qed.

(** X16: when every genre of the path table is in the vocabulary, the matrix
    [extract_midi_features] returns has at most one row per input row, and
    every row of it has five values: four features followed by a class
    index that is a valid position of [label_list]. *)
Theorem extract_midi_features_rows (PrettyMIDI : string → outcome MidiFile)
    (label_list : list string) (path_df : list PathRow) :
  (∀ row, row ∈ path_df → is_Some (label_dict label_list !! Genre row)) →
  ∃ out, extract_midi_features PrettyMIDI label_list path_df = Ok out ∧
         (length out ≤ length path_df)%nat ∧
         ∀ row, row ∈ out →
           length row = 5%nat ∧
           ∃ features c, row = features ++ [inject_Z c] ∧ length features = 4%nat ∧
                         0 ≤ c < Z.of_nat (num_classes label_list).
Proof.
  intros Hknown.
  destruct (extract_midi_features_shape PrettyMIDI label_list path_df Hknown)
    as (out & Hout & Hlen & Hrows).
  exists out. split; [done|]. split; [done|].
  intros row Hrow. rewrite Forall_forall in Hrows.
  destruct (Hrows row Hrow) as (features & c & -> & Hfeatures & Hc).
  split; [rewrite length_app; simpl; lia|]. by exists features, c.
Qed.

Lemma extract_midi_features_rows_witness :
  ∃ out, extract_midi_features Demo.codec Demo.labels Demo.rows = Ok out ∧
         (length out ≤ length Demo.rows)%nat ∧
         ∀ row, row ∈ out →
           length row = 5%nat ∧
           ∃ features c, row = features ++ [inject_Z c] ∧ length features = 4%nat ∧
                         0 ≤ c < Z.of_nat (num_classes Demo.labels).
Proof.
  apply (extract_midi_features_rows Demo.codec Demo.labels Demo.rows).
  intros row Hrow. unfold Demo.rows in Hrow.
  repeat (apply elem_of_cons in Hrow as [->|Hrow]); [| | |by apply elem_of_nil in Hrow];
    vm_compute; eauto.
Defined.

(** X17: the genre of a row is looked up before the outcome of the extraction
    is examined: the first row whose genre is not a key of [label_dict]
    makes [extract_midi_features] raise [KeyError], whether or not its file
    could be decoded, and the rows collected so far are lost. *)
Theorem extract_midi_features_unknown_genre (PrettyMIDI : string → outcome MidiFile)
    (label_list : list string) (before after : list PathRow) (bad : PathRow) :
  (∀ row, row ∈ before → is_Some (label_dict label_list !! Genre row)) →
  label_dict label_list !! Genre bad = None →
  extract_midi_features PrettyMIDI label_list (before ++ bad :: after) = Raise KeyError.
Proof.
  intros Hknown Hbad. unfold extract_midi_features.
  rewrite extract_loop_app, extract_loop_spec by done.
  cbn [mbind result_bind extract_loop].
  destruct (get_features_returns PrettyMIDI (Path bad)) as [features ->].
  unfold getitem. rewrite Hbad. reflexivity.
Qed.

Lemma extract_midi_features_unknown_genre_witness :
  extract_midi_features Demo.codec Demo.labels
    ([ {| Path := "plain.mid"; Genre := "B" |} ] ++
     {| Path := "waltz.mid"; Genre := "Polka" |} ::
     [ {| Path := "waltz.mid"; Genre := "D" |} ]) = Raise KeyError.
Proof.
  apply (extract_midi_features_unknown_genre Demo.codec Demo.labels).
  - intros row Hrow.
    repeat (apply elem_of_cons in Hrow as [->|Hrow]); [|by apply elem_of_nil in Hrow];
      vm_compute; eauto.
  - reflexivity.
Defined.

(** ** Feature normalisation *)

(** X18: on numbers within the binary64 range [normalize_features] needs
    five values: on a shorter list it raises [IndexError]; on a longer one
    the values after the fifth are ignored, and the second value (the
    number of signature changes) never reaches the result. *)
Theorem normalize_features_arity (features : list Q) :
  Forall in_binary64_range features →
  ((length features < 5)%nat → normalize_features features = Raise IndexError) ∧
  (∀ f0 f1 f2 f3 f4 more,
     features = f0 :: f1 :: f2 :: f3 :: f4 :: more →
     normalize_features features =
       Ok [((f0 - 150) / 300)%Q; ((f2 - 260) / 400)%Q;
           ((f3 - 3) / 8)%Q; ((f4 - 3) / 8)%Q]).
Proof.
  intros _. split.
  - intros Hlen.
    destruct features as [|f0 [|f1 [|f2 [|f3 [|f4 more]]]]]; simpl in Hlen; try lia;
      reflexivity.
  - by intros f0 f1 f2 f3 f4 more ->.
Qed.

Lemma normalize_features_arity_witness :
  ((length [120; 0; 480]%Q < 5)%nat →
   normalize_features [120; 0; 480]%Q = Raise IndexError) ∧
  (∀ f0 f1 f2 f3 f4 more,
     [120; 0; 480]%Q = f0 :: f1 :: f2 :: f3 :: f4 :: more →
     normalize_features [120; 0; 480]%Q =
       Ok [((f0 - 150) / 300)%Q; ((f2 - 260) / 400)%Q;
           ((f3 - 3) / 8)%Q; ((f4 - 3) / 8)%Q]).
Proof.
  apply (normalize_features_arity [120; 0; 480]%Q).
  repeat (constructor; [split; by vm_compute|]). constructor.
Defined.

(** X19: raw values in the intervals the constants are made for are
    normalised into [-1, 1]: a tempo in [-150, 450], a resolution in
    [-140, 660] and a time signature part in [-5, 11], the number of
    signature changes being any number within the binary64 range. *)
Theorem normalize_features_range (tempo changes resolution ts_1 ts_2 : Q) :
  in_binary64_range changes →
  (-150 <= tempo)%Q ∧ (tempo <= 450)%Q →
  (-140 <= resolution)%Q ∧ (resolution <= 660)%Q →
  (-5 <= ts_1)%Q ∧ (ts_1 <= 11)%Q →
  (-5 <= ts_2)%Q ∧ (ts_2 <= 11)%Q →
  ∃ t r a b,
    normalize_features [tempo; changes; resolution; ts_1; ts_2] = Ok [t; r; a; b] ∧
    ((-1 <= t)%Q ∧ (t <= 1)%Q) ∧
    ((-1 <= r)%Q ∧ (r <= 1)%Q) ∧
    ((-1 <= a)%Q ∧ (a <= 1)%Q) ∧
    ((-1 <= b)%Q ∧ (b <= 1)%Q).
Proof.
  intros _ Htempo Hresolution Hts_1 Hts_2.
  eexists _, _, _, _. split; [reflexivity|].
  destruct tempo as [tn td], resolution as [rn rd], ts_1 as [an ad], ts_2 as [bn bd].
  revert Htempo Hresolution Hts_1 Hts_2.
  unfold Qle, Qdiv, Qminus, Qplus, Qmult, Qinv, Qopp. cbn [Qnum Qden].
  intros. repeat split; lia.
Qed.

Lemma normalize_features_range_witness :
  ∃ t r a b,
    normalize_features [180; 2; 480; 3; 4]%Q = Ok [t; r; a; b] ∧
    ((-1 <= t)%Q ∧ (t <= 1)%Q) ∧
    ((-1 <= r)%Q ∧ (r <= 1)%Q) ∧
    ((-1 <= a)%Q ∧ (a <= 1)%Q) ∧
    ((-1 <= b)%Q ∧ (b <= 1)%Q).
Proof.
  apply (normalize_features_range 180 2 480 3 4); split; by vm_compute.
Defined.

(** The values are not clamped: a tempo of 600 gives 3/2. *)
Example normalize_features_beyond_range :
  normalize_features [600; 0; 480; 4; 4]%Q =
    Ok [((600 - 150) / 300)%Q; ((480 - 260) / 400)%Q; ((4 - 3) / 8)%Q; ((4 - 3) / 8)%Q] ∧
  (1 < (600 - 150) / 300)%Q.
Proof. split; [reflexivity|by vm_compute]. Qed.

(** ** Matching files with genres *)


Local Opaque Str.drop.

(** X20: [get_matched_midi] is an inner join: its rows are exactly the pairs of
    a file [dir/file], for a walked directory [dir] whose name has 36
    characters, and the genre of a row of the genre table whose track
    identifier is [dir[18:]].  Directories with names of another length,
    and files whose track has no genre, contribute nothing. *)
Theorem get_matched_midi_rows (walk : list (string * list string * list string))
    (genre_df : list GenreTable.row) (row : PathRow) :
  row ∈ get_matched_midi walk genre_df ↔
  ∃ dir_name subdir_list file_list file g,
    (dir_name, subdir_list, file_list) ∈ walk ∧
    String.length dir_name = 36%nat ∧
    file ∈ file_list ∧
    g ∈ genre_df ∧
    GenreTable.TrackID g = Str.drop 18 dir_name ∧
    row = {| Path := dir_name +:+ "/" +:+ file; Genre := GenreTable.Genre g |}.
Proof.
  unfold get_matched_midi. rewrite list_elem_of_bind. split.
  - intros ([track_id file_path] & Hrow & Hleft).
    apply list_elem_of_bind in Hrow as (g & Hrow & Hg).
    apply list_elem_of_bind in Hleft as ([[dir_name subdir_list] file_list] & Hleft & Hwalk).
    destruct (decide (String.length dir_name = 36%nat)) as [Hlen|]; [|by apply elem_of_nil in Hleft].
    rewrite <- list_fmap_compose in Hleft.
    apply list_elem_of_fmap in Hleft as (file & Heq & Hfile).
    cbv beta in Heq. injection Heq as Htrack Hpath. subst track_id file_path.
    destruct (decide (GenreTable.TrackID g = Str.drop 18 dir_name)) as [Hid|];
      [|by apply elem_of_nil in Hrow].
    apply list_elem_of_singleton in Hrow as ->.
    by exists dir_name, subdir_list, file_list, file, g.
  - intros (dir_name & subdir_list & file_list & file & g & Hwalk & Hlen & Hfile & Hg & Hid & ->).
    exists (Str.drop 18 dir_name, dir_name +:+ "/" +:+ file). split.
    + apply list_elem_of_bind. exists g. split; [|done].
      rewrite decide_True by done. by apply list_elem_of_singleton.
    + apply list_elem_of_bind. exists (dir_name, subdir_list, file_list). split; [|done].
      rewrite decide_True by done. rewrite <- list_fmap_compose.
      apply list_elem_of_fmap. by exists file.
Qed.

(** X21: every genre [get_matched_midi] attaches to a file is a genre of the
    table, so when [label_list] holds every genre of the table, as the list
    made from their set does, [extract_midi_features] never raises
    [KeyError] on the matched files: it returns the labelled rows of the
    files that could be decoded. *)
Theorem matched_files_extract (PrettyMIDI : string → outcome MidiFile)
    (label_list : list string)
    (walk : list (string * list string * list string))
    (genre_df : list GenreTable.row) :
  (∀ g, g ∈ genre_df → GenreTable.Genre g ∈ label_list) →
  (∀ row, row ∈ get_matched_midi walk genre_df →
          ∃ g, g ∈ genre_df ∧ Genre row = GenreTable.Genre g) ∧
  extract_midi_features PrettyMIDI label_list (get_matched_midi walk genre_df) =
    Ok (omap (labeled_row PrettyMIDI label_list) (get_matched_midi walk genre_df)).
Proof.
  intros Hlabels.
  assert (∀ row, row ∈ get_matched_midi walk genre_df →
                 ∃ g, g ∈ genre_df ∧ Genre row = GenreTable.Genre g) as Hgenres.
  { intros row Hrow. unfold get_matched_midi in Hrow.
    apply list_elem_of_bind in Hrow as ([track_id file_path] & Hrow & _).
    apply list_elem_of_bind in Hrow as (g & Hrow & Hg).
    destruct (decide (GenreTable.TrackID g = track_id)); [|by apply elem_of_nil in Hrow].
    apply list_elem_of_singleton in Hrow as ->. by exists g. }
  split; [done|].
  unfold extract_midi_features. apply extract_loop_spec.
  intros row Hrow. destruct (Hgenres row Hrow) as (g & Hg & ->).
  rewrite label_dict_lookup.
  destruct (find_index_elem_of (GenreTable.Genre g) label_list) as [i ->]; [by apply Hlabels|].
  by eexists.
Qed.

Local Transparent Str.drop.

Lemma matched_files_extract_witness :
  (∀ row, row ∈ get_matched_midi Sample.walk Sample.genre_df →
          ∃ g, g ∈ Sample.genre_df ∧ Genre row = GenreTable.Genre g) ∧
  extract_midi_features Sample.codec Sample.label_list
                        (get_matched_midi Sample.walk Sample.genre_df) =
    Ok (omap (labeled_row Sample.codec Sample.label_list)
             (get_matched_midi Sample.walk Sample.genre_df)).
Proof.
  apply (matched_files_extract Sample.codec Sample.label_list Sample.walk Sample.genre_df).
  intros g Hg. unfold Sample.genre_df in Hg.
  repeat (apply elem_of_cons in Hg as [->|Hg]); [| | |by apply elem_of_nil in Hg];
    by_computation.
Defined.

(** ** The partition, continued *)

Lemma partition_cuts {A : Type} (permutation : list A → list A) (labeled_features : list A) :
  (∀ l, permutation l ≡ₚ l) →
  Z.of_nat (length labeled_features) < 2 ^ 50 →
  let N := Z.of_nat (length labeled_features) in
  let shuffled := permutation labeled_features in
  let num_training := Z.to_nat (3 * N / 5) in
  let num_validation := Z.to_nat (4 * N / 5) in
  partition permutation labeled_features =
    Ok (take num_training shuffled,
        take (num_validation - num_training) (drop num_training shuffled),
        drop num_validation shuffled) ∧
  (num_training ≤ num_validation ≤ length labeled_features)%nat.
Proof.
  intros Hperm Hsize N shuffled num_training num_validation.
  pose proof (Permutation_length (Hperm labeled_features)) as Hlen.
  assert (0 ≤ 3 * N / 5 ≤ 4 * N / 5) as Hcuts.
  { split; [apply Z.div_pos; lia|]. apply Z.div_le_mono; lia. }
  assert (4 * N / 5 ≤ N) as Hlast by (apply Z.div_le_upper_bound; lia).
  split; [|unfold num_training, num_validation; lia].
  unfold partition. rewrite Hlen. fold N.
  rewrite int_mul_0_6, int_mul_0_8 by (unfold N; lia). simpl.
  unfold slice_to, slice, slice_from.
  rewrite !clip_in_range by (rewrite Hlen; fold N; lia). reflexivity.
Qed.


Lemma small_quotients (N : Z) :
  0 ≤ N →
  (3 * N / 5 = 0 ↔ N ≤ 1) ∧
  (4 * N / 5 - 3 * N / 5 = 0 ↔ N ≤ 2) ∧
  (N - 4 * N / 5 = 0 ↔ N = 0).
Proof.
  intros HN.
  pose proof (Z.div_mod (3 * N) 5 ltac:(lia)) as H3.
  pose proof (Z.mod_pos_bound (3 * N) 5 ltac:(lia)) as H3b.
  pose proof (Z.div_mod (4 * N) 5 ltac:(lia)) as H4.
  pose proof (Z.mod_pos_bound (4 * N) 5 ltac:(lia)) as H4b.
  revert H3 H3b H4 H4b.
  generalize (3 * N / 5), ((3 * N) mod 5), (4 * N / 5), ((4 * N) mod 5). lia.
Qed.

(** X22: small inputs are partitioned without error: the training slice is
    empty exactly for fewer than 2 rows, the validation slice exactly for
    fewer than 3 rows, and the test slice only for the empty matrix. *)
Theorem partition_empty_slices {A : Type} (permutation : list A → list A)
    (labeled_features : list A) :
  (∀ l, permutation l ≡ₚ l) →
  Z.of_nat (length labeled_features) < 2 ^ 50 →
  ∃ training_data validation_data test_data,
    partition permutation labeled_features =
      Ok (training_data, validation_data, test_data) ∧
    (training_data = [] ↔ (length labeled_features ≤ 1)%nat) ∧
    (validation_data = [] ↔ (length labeled_features ≤ 2)%nat) ∧
    (test_data = [] ↔ length labeled_features = 0%nat).
Proof.
  intros Hperm Hsize.
  destruct (partition_cuts permutation labeled_features Hperm Hsize) as [Hpart Hcuts].
  pose proof (Permutation_length (Hperm labeled_features)) as Hlen.
  destruct (small_quotients (Z.of_nat (length labeled_features))) as (Htr & Hva & Hte);
    [lia|].
  assert (0 ≤ 3 * Z.of_nat (length labeled_features) / 5) by (apply Z.div_pos; lia).
  eexists _, _, _. split; [exact Hpart|].
  rewrite <- !length_zero_iff_nil, length_take, length_take, !length_drop, Hlen.
  split; [|split]; lia.
Qed.

Lemma partition_empty_slices_witness :
  ∃ training_data validation_data test_data : list nat,
    partition reverse [10; 11]%nat = Ok (training_data, validation_data, test_data) ∧
    (training_data = [] ↔ (length [10; 11]%nat ≤ 1)%nat) ∧
    (validation_data = [] ↔ (length [10; 11]%nat ≤ 2)%nat) ∧
    (test_data = [] ↔ length [10; 11]%nat = 0%nat).
Proof.
  apply (partition_empty_slices reverse [10; 11]%nat).
  - intros l. apply reverse_Permutation.
  - simpl. lia.
Defined.

(** ** Separating features from labels *)


Lemma separate_rows (w : nat) (data : list (list Q)) :
  Forall (labeled_row_of w) data →
  ∃ labels,
    fmap (M := list) astype_int <$> column (S w) data (Z.of_nat (S w) - 1) = Ok labels ∧
    labeled_rows (columns_to data (Z.of_nat (S w) - 1)) labels = data ∧
    length (columns_to data (Z.of_nat (S w) - 1)) = length data ∧
    length labels = length data ∧
    Forall (λ f, length f = w) (columns_to data (Z.of_nat (S w) - 1)).
Proof.
  replace (Z.of_nat (S w) - 1) with (Z.of_nat w) by lia.
  unfold column. rewrite decide_True by lia.
  induction 1 as [|row data (f & c & -> & Hf) _ (labels & Hlabels & Hjoin & Hlen & Hllen & Hw)].
  - exists []. repeat split; constructor.
  - assert (slice_to (f ++ [inject_Z c]) (Z.of_nat w) = f) as Hslice.
    { unfold slice_to. rewrite clip_in_range by (rewrite length_app; simpl; lia).
      rewrite Nat2Z.id, <- Hf. by rewrite take_app_length. }
    assert (item_Z (f ++ [inject_Z c]) (Z.of_nat w) = Ok (inject_Z c)) as Hitem.
    { unfold item_Z. rewrite (proj2 (Z.leb_le 0 _)) by lia. rewrite Nat2Z.id.
      apply item_lookup. rewrite <- Hf. by rewrite list_lookup_middle. }
    destruct (mapM (λ row, item_Z row (Z.of_nat w)) data) as [col|e] eqn:Hcol;
      [|discriminate].
    injection Hlabels as <-.
    exists (astype_int (inject_Z c) :: (astype_int <$> col)).
    cbn [mapM]. rewrite Hitem. cbn [mbind result_bind]. rewrite Hcol.
    cbn [mbind result_bind mret result_ret fmap result_fmap list_fmap].
    split; [done|].
    unfold columns_to in *. cbn [fmap list_fmap]. rewrite Hslice.
    unfold labeled_rows in *. cbn [zip_with length].
    assert (astype_int (inject_Z c) = c) as -> by apply Z.quot_1_r.
    split; [by rewrite Hjoin|]. split; [by rewrite Hlen|].
    split; [by rewrite <- Hllen|]. by constructor.
Qed.

(** The separation gives back, set by set, the rows it was given. *)
Lemma separation_spec (w : nat)
    (permutation : list (list Q) → list (list Q)) (labeled_features : list (list Q)) :
  (∀ l, permutation l ≡ₚ l) →
  Z.of_nat (length labeled_features) < 2 ^ 50 →
  labeled_features ≠ [] →
  Forall (labeled_row_of w) labeled_features →
  ∃ ds,
    partition_and_separate permutation labeled_features = Ok ds ∧
    labeled_rows (training_features ds) (training_labels ds) ++
    labeled_rows (validation_features ds) (validation_labels ds) ++
    labeled_rows (test_features ds) (test_labels ds) = permutation labeled_features ∧
    length (training_features ds) = length (training_labels ds) ∧
    length (validation_features ds) = length (validation_labels ds) ∧
    length (test_features ds) = length (test_labels ds) ∧
    Forall (λ f, length f = w)
           (training_features ds ++ validation_features ds ++ test_features ds).
Proof.
  intros Hperm Hsize Hne Hrows.
  destruct (partition_cuts permutation labeled_features Hperm Hsize) as [Hpart Hcuts].
  unfold partition_and_separate. rewrite Hpart. cbn [mbind result_bind].
  assert (Forall (labeled_row_of w) (permutation labeled_features)) as Hshuffled.
  { by rewrite (Hperm labeled_features). }
  set (shuffled := permutation labeled_features) in *.
  assert (shape_1 shuffled = Ok (S w)) as ->.
  { destruct shuffled as [|row rest] eqn:Hs.
    - pose proof (Permutation_length (Hperm labeled_features)) as Hlen.
      fold shuffled in Hlen. rewrite Hs in Hlen. by destruct labeled_features.
    - apply Forall_cons in Hshuffled as [(f & c & -> & <-) _]. simpl.
      rewrite length_app. simpl. f_equal. lia. }
  cbn [mbind result_bind].
  set (a := Z.to_nat (3 * Z.of_nat (length labeled_features) / 5)) in *.
  set (b := Z.to_nat (4 * Z.of_nat (length labeled_features) / 5)) in *.
  destruct (separate_rows w (take a shuffled)) as (l1 & -> & Hj1 & Hf1 & Hl1 & Hw1);
    [by apply Forall_take|].
  destruct (separate_rows w (take (b - a) (drop a shuffled)))
    as (l2 & -> & Hj2 & Hf2 & Hl2 & Hw2); [by apply Forall_take, Forall_drop|].
  destruct (separate_rows w (drop b shuffled)) as (l3 & -> & Hj3 & Hf3 & Hl3 & Hw3);
    [by apply Forall_drop|].
  eexists. split; [reflexivity|].
  cbn [training_features training_labels validation_features validation_labels
       test_features test_labels].
  rewrite Hj1, Hj2, Hj3, Hf1, Hf2, Hf3, Hl1, Hl2, Hl3.
  split.
  - replace (drop b shuffled) with (drop (b - a) (drop a shuffled))
      by (rewrite drop_drop; f_equal; lia).
    by rewrite !take_drop.
  - repeat split; try done. by rewrite !Forall_app.
Qed.


(** X24: on the empty matrix the cell fails after slicing: the array made of
    no rows has one dimension, and reading [shape[1]] raises [IndexError]. *)
Theorem partition_and_separate_empty (permutation : list (list Q) → list (list Q)) :
  (∀ l, permutation l ≡ₚ l) →
  partition_and_separate permutation [] = Raise IndexError.
Proof.
  intros Hperm. unfold partition_and_separate, partition.
  rewrite (proj1 (Permutation_nil_r _) (Hperm [])). reflexivity.
Qed.

Lemma partition_and_separate_empty_witness :
  partition_and_separate reverse [] = Raise IndexError.
Proof.
  apply (partition_and_separate_empty reverse).
  intros l. apply reverse_Permutation.
Defined.


(** ** From the path table to the one-hot labels *)

Lemma labeled_rows_labels (P : Z → Prop) (features : list (list Q)) (labels : list Z) :
  length features = length labels →
  Forall (λ row, ∃ f c, row = f ++ [inject_Z c] ∧ P c) (labeled_rows features labels) →
  Forall P labels.
Proof.
  revert labels. induction features as [|f features IH]; intros [|l labels] Hlen Hrows.
  - constructor.
  - done.
  - done.
  - injection Hlen as Hlen. cbn [labeled_rows zip_with] in Hrows.
    apply Forall_cons in Hrows as [(f' & c & Heq & Hc) Hrest].
    apply app_inj_tail in Heq as [_ [= ->]].
    constructor; [done|by apply IH].
Qed.

(** X25: the stages fit together: when every genre of the path table is in
    the vocabulary and at least one file is extracted, the labelled matrix
    that [extract_midi_features] returns can be partitioned and separated,
    every class index of the three sets is a position of [label_list], and
    [one_hot] encodes the three label columns. *)
Theorem dataset_labels_encodable (PrettyMIDI : string → outcome MidiFile)
    (label_list : list string) (permutation : list (list Q) → list (list Q))
    (path_df : list PathRow) (labeled_features : list (list Q)) :
  (∀ row, row ∈ path_df → is_Some (label_dict label_list !! Genre row)) →
  (∀ l, permutation l ≡ₚ l) →
  Z.of_nat (length path_df) < 2 ^ 50 →
  extract_midi_features PrettyMIDI label_list path_df = Ok labeled_features →
  labeled_features ≠ [] →
  ∃ ds t_hot v_hot s_hot,
    partition_and_separate permutation labeled_features = Ok ds ∧
    Forall (λ c, 0 ≤ c < Z.of_nat (num_classes label_list))
           (training_labels ds ++ validation_labels ds ++ test_labels ds) ∧
    one_hot label_list (training_labels ds) = Ok t_hot ∧
    one_hot label_list (validation_labels ds) = Ok v_hot ∧
    one_hot label_list (test_labels ds) = Ok s_hot.
Proof.
  intros Hknown Hperm Hsize Hextract Hne.
  destruct (extract_midi_features_shape PrettyMIDI label_list path_df Hknown)
    as (out & Hout & Hlen & Hrows).
  rewrite Hextract in Hout. injection Hout as <-.
  destruct (separation_spec 4 permutation labeled_features Hperm)
    as (ds & Hds & Hrejoin & Ht & Hv & Hs & _); [lia|done| |].
  { eapply Forall_impl; [exact Hrows|].
    intros row (f & c & -> & Hf & _). by exists f, c. }
  assert (Forall (λ row, ∃ f c, row = f ++ [inject_Z c] ∧
                                0 ≤ c < Z.of_nat (num_classes label_list))
                 (permutation labeled_features)) as Hshuffled.
  { rewrite (Hperm labeled_features). eapply Forall_impl; [exact Hrows|].
    intros row (f & c & -> & _ & Hc). by exists f, c. }
  rewrite <- Hrejoin, !Forall_app in Hshuffled.
  destruct Hshuffled as (Ht' & Hv' & Hs').
  apply labeled_rows_labels in Ht', Hv', Hs'; try done.
  destruct (one_hot_in_range label_list (training_labels ds)) as [t_hot Ht_hot];
    [by apply Forall_forall|].
  destruct (one_hot_in_range label_list (validation_labels ds)) as [v_hot Hv_hot];
    [by apply Forall_forall|].
  destruct (one_hot_in_range label_list (test_labels ds)) as [s_hot Hs_hot];
    [by apply Forall_forall|].
  exists ds, t_hot, v_hot, s_hot. by rewrite !Forall_app.
Qed.

Lemma dataset_labels_encodable_witness :
  ∃ ds t_hot v_hot s_hot,
    partition_and_separate reverse
      [ [((120 - 150) / 300)%Q; ((inject_Z 120 - 260) / 400)%Q;
         ((inject_Z 4 - 3) / 8)%Q; ((inject_Z 4 - 3) / 8)%Q; inject_Z 1];
        [((180 - 150) / 300)%Q; ((inject_Z 480 - 260) / 400)%Q;
         ((inject_Z 3 - 3) / 8)%Q; ((inject_Z 4 - 3) / 8)%Q; inject_Z 3] ] = Ok ds ∧
    Forall (λ c, 0 ≤ c < Z.of_nat (num_classes Demo.labels))
           (training_labels ds ++ validation_labels ds ++ test_labels ds) ∧
    one_hot Demo.labels (training_labels ds) = Ok t_hot ∧
    one_hot Demo.labels (validation_labels ds) = Ok v_hot ∧
    one_hot Demo.labels (test_labels ds) = Ok s_hot.
Proof.
  apply (dataset_labels_encodable Demo.codec Demo.labels reverse Demo.rows).
  - intros row Hrow. unfold Demo.rows in Hrow.
    repeat (apply elem_of_cons in Hrow as [->|Hrow]); [| | |by apply elem_of_nil in Hrow];
      vm_compute; eauto.
  - intros l. apply reverse_Permutation.
  - simpl. lia.
  - reflexivity.
  - discriminate.
Defined.

(** ** Sample runs *)

(** A last line without its newline is read like the others. *)
Example get_genres_unterminated_last_line :
  get_genres (render_table Sample.genre_table +:+
              Str.join (String Str.tab "") ["TRAAAFD128F92F423A"; "Blues"]) =
    Ok (Sample.genre_df ++
        [ {| GenreTable.TrackID := "TRAAAFD128F92F423A"; GenreTable.Genre := "Blues" |} ]).
Proof. vm_compute. reflexivity. Qed.

(** The two files of the matched track get its genre; the track without a
    genre and the root directory give nothing. *)
Example get_matched_midi_sample :
  get_matched_midi Sample.walk Sample.genre_df =
    [ {| Path := "lmd_matched/A/A/A/TRAAAAK128F9318786/plain.mid"; Genre := "Pop_Rock" |};
      {| Path := "lmd_matched/A/A/A/TRAAAAK128F9318786/corrupt.mid"; Genre := "Pop_Rock" |} ].
Proof. vm_compute. reflexivity. Qed.

(** Three rows, shuffled by reversal: one row in each set. *)
Example partition_and_separate_sample :
  partition_and_separate reverse Sample.labeled_features =
    Ok {| training_features := [[8; 9; 10; 11]%Q]; training_labels := [1];
          validation_features := [[4; 5; 6; 7]%Q]; validation_labels := [0];
          test_features := [[0; 1; 2; 3]%Q]; test_labels := [2] |}.
Proof. vm_compute. reflexivity. Qed.
